(** * go-lachesis: the consensus core, embedded and verified

    Shallow embedding of
    - [poset/gas_power.go]            (gas-power regulator),
    - the [poset] frame-decision and epoch-sealing code
      ([confirmBlockEvents], [onFrameDecided], [tryToSealEpoch], [onNewEpoch]),
    - [gossip/consensus_callbacks.go] ([processEvent], [spillBlockEvents]).

    Machine integers are [Z] with the wrap-around written out; hashes and
    addresses are numbers; Go maps are [gmap]s; a call of [Log.Crit]
    (which logs and exits the process) is the outcome [Crit]. *)

From Stdlib Require Import ZArith List Lia Bool Ascii String.
From stdpp Require Import gmap list strings sorting.

Local Open Scope Z_scope.

(** ** Machine integers *)

Definition wrap64 (x : Z) : Z := x mod 2 ^ 64.
Definition wrap32 (x : Z) : Z := x mod 2 ^ 32.

Definition is_uint64 (x : Z) : Prop := 0 <= x < 2 ^ 64.

(** [math/big]: the regulator multiplies and divides in [big.Int] and
    narrows with [Uint64()], which keeps the low 64 bits.  [Div] panics on
    a zero divisor: [None]. *)
Module big.
Definition mul (a b : Z) : Z := a * b.
Definition div (a b : Z) : option Z := if b =? 0 then None else Some (a / b).
Definition Uint64 (a : Z) : Z := wrap64 a.
End big.

(** [time.Hour], in nanoseconds. *)
Definition Hour : Z := 3600 * 1000000000.

(** ** Outcome of code that may call [Log.Crit]

    [Crit msg]: the code logged [msg] at level critical and the process
    exited.  [Panic msg]: a run-time panic of Go.  [OutOfFuel] belongs to
    the model only: a loop of the embedding used up its fuel. *)

Inductive outcome (A : Type) : Type :=
| Done (a : A)
| Crit (msg : string)
| Panic (msg : string)
| OutOfFuel.
Arguments Done {A} a.
Arguments Crit {A} msg.
Arguments Panic {A} msg.
Arguments OutOfFuel {A}.

(** ** Hashes and addresses *)

Abbreviation EventHash := N (only parsing).
Abbreviation Address := N (only parsing).
Abbreviation StateRoot := N (only parsing).

(** ** package inter: event headers, events, blocks *)

Module inter.

(** Modelled from the spec: the event header of the data model (section 3),
    with the fields the embedded functions read; [Hash] stands for the
    Keccak hash of the canonical encoding, [Epoch] is a [uint32],
    [GasPowerUsed], [GasPowerLeft] and [ClaimedTime] are [uint64]. *)
Record EventHeaderData := {
  Hash : EventHash;
  Epoch : Z;
  Seq : Z;
  Frame : Z;
  Creator : Address;
  Lamport : Z;
  Parents : list EventHash;
  GasPowerUsed : Z;
  GasPowerLeft : Z;
  ClaimedTime : Z
}.

(** Modelled from the spec: [SelfParent()] of the event header, missing
    from the sources.  The first parent is the self-parent; an event with
    [Seq] 1 (or without parents) has none. *)
Definition SelfParent (e : EventHeaderData) : option EventHash :=
  if (Seq e <=? 1) then None
  else match Parents e with
       | [] => None
       | sp :: _ => Some sp
       end.

Record Event := {
  header : EventHeaderData;
  Transactions : list N
}.

(** Modelled from the spec: the block of section 4.H, step 5. *)
Record Block := {
  Index : Z;
  Time : Z;
  Events : list EventHash;
  Atropos : EventHash;
  PrevHash : EventHash
}.

(** Modelled from the spec: [NewBlock(index, time, events, prevHash)] fills
    the block's fields and leaves the others at their zero value. *)
Definition NewBlock (index time : Z) (events : list EventHash)
    (prev : EventHash) : Block :=
  {| Index := index; Time := time; Events := events;
     Atropos := 0%N; PrevHash := prev |}.

End inter.

(** An event embeds its header (Go's struct embedding). *)
Coercion inter.header : inter.Event >-> inter.EventHeaderData.

(** ** package pos: the stake table *)

Module pos.

(** Modelled from the spec: [pos.Validators], the mapping creator -> stake
    of section 4.A ([Get] of an absent creator is 0; [TotalStake] is the
    sum of the stakes, accumulated in a [uint64]). *)
Abbreviation Validators := (gmap N Z) (only parsing).

Definition Get (vv : Validators) (a : Address) : Z := default 0 (vv !! a).

Definition TotalStake (vv : Validators) : Z :=
  map_fold (fun _ s sum => wrap64 (sum + s)) 0 vv.

(** The sum of the stakes as a mathematical integer. *)
Definition stake_sum (vv : Validators) : Z :=
  map_fold (fun _ s sum => sum + s) 0 vv.

(** Stakes are [uint64]s and their sum fits in 64 bits (section 4.A). *)
Definition wf (vv : Validators) : Prop :=
  map_Forall (fun _ s => 0 <= s) vv /\ stake_sum vv < 2 ^ 64.

End pos.

(** ** package poset: state of the consensus engine *)

Module election.

Record voteValue := {
  decided : bool;
  yes : bool;
  seenRoot : EventHash
}.

(** [Election]: the parameters of the election and its cached state. *)
Record Election := {
  frameToDecide : Z;
  validators : gmap N Z;
  decidedRoots : gmap N voteValue;
  votes : gmap (N * N) voteValue
}.

(** [Reset] erases the current election state and prepares the election
    of another frame. *)
Definition Reset (el : Election) (vv : gmap N Z) (frame : Z) : Election :=
  {| frameToDecide := frame; validators := vv;
     decidedRoots := ∅; votes := ∅ |}.

End election.

Module vector.

(** Modelled from the spec: the vector clock (section 4.E) as far as the
    epoch seal sees it: the validators it indexes and its in-memory cache
    of highest-before vectors.  Its persistent table is
    [epochTable.VectorIndex] of the store. *)
Record Index := {
  validators : gmap N Z;
  cache : gmap N (list Z)
}.

(** Modelled from the spec: [Reset] ("reset E") takes the validators of the
    new epoch and forgets the cached vectors. *)
Definition Reset (vi : Index) (vv : gmap N Z) : Index :=
  {| validators := vv; cache := ∅ |}.

End vector.

Module GenesisState.

(** The record of the previous epoch ([PrevEpoch]). *)
Record t := {
  Epoch : Z;
  Time : Z;
  LastAtropos : EventHash;
  StateHash : StateRoot;
  LastHeaders : gmap N inter.EventHeaderData
}.

End GenesisState.

Module poset.

Definition firstFrame : Z := 1.
Definition firstEpoch : Z := 1.

Abbreviation headersByCreator := (gmap N inter.EventHeaderData) (only parsing).

(** Modelled from the spec: the regulator's options (section 6).  The two
    periods are durations in nanoseconds. *)
Record GasPowerConfig := {
  TotalPerH : Z;
  MaxGasPowerPeriod : Z;
  StartupPeriod : Z;
  MinStartupGasPower : Z
}.

(** Modelled from the spec: the DAG options (section 6). *)
Record DagConfig := {
  EpochLen : Z;
  MaxParents : Z;
  MaxValidatorEventsInBlock : Z;
  GasPower : GasPowerConfig
}.

(** [checkpoint]: changes only after a frame is decided. *)
Record Checkpoint := {
  LastDecidedFrame : Z;
  LastBlockN : Z;
  LastAtropos : EventHash;
  StateHash : StateRoot;
  NextValidators : gmap N Z
}.

(** [epochState] of [poset/epoch.go]: changes only on a change of epoch. *)
Record EpochState := {
  EpochN : Z;
  PrevEpoch : GenesisState.t;
  Validators : gmap N Z
}.

(** Modelled from the spec: the epoch-scoped tables of the store
    (section 4.C): roots by (frame, creator, hash), the vector index and
    the confirmed-on frame of an event. *)
Record EpochTable := {
  Roots : gset (Z * N * N);
  VectorIndex : gmap N (list Z);
  ConfirmedEvent : gmap N Z
}.

(** Modelled from the spec: the store of the engine: the persisted epoch
    state and checkpoint, and the epoch database with its tables. *)
Record Store := {
  tableEpoch : option EpochState;
  tableCheckpoint : option Checkpoint;
  epochDb : Z;
  epochTable : EpochTable
}.

Abbreviation ApplyBlockFn :=
  (inter.Block -> StateRoot -> gmap N Z -> StateRoot * gmap N Z) (only parsing).

(** [Poset].  [input] is the event source ([GetEventHeader(epoch, hash)]);
    [applied] is a ghost field: the blocks handed to [applyBlock] so far,
    latest first. *)
Record Poset := {
  dag : DagConfig;
  store : Store;
  input : gmap (Z * N) inter.EventHeaderData;
  checkpoint : Checkpoint;
  epochState : EpochState;
  vecClock : vector.Index;
  election : election.Election;
  applyBlock : option ApplyBlockFn;
  applied : list inter.Block
}.

(** Field updates. *)
Definition with_store (f : Store -> Store) (p : Poset) : Poset :=
  {| dag := dag p; store := f (store p); input := input p;
     checkpoint := checkpoint p; epochState := epochState p;
     vecClock := vecClock p; election := election p;
     applyBlock := applyBlock p; applied := applied p |}.

Definition with_checkpoint (f : Checkpoint -> Checkpoint) (p : Poset) : Poset :=
  {| dag := dag p; store := store p; input := input p;
     checkpoint := f (checkpoint p); epochState := epochState p;
     vecClock := vecClock p; election := election p;
     applyBlock := applyBlock p; applied := applied p |}.

Definition with_epochState (f : EpochState -> EpochState) (p : Poset) : Poset :=
  {| dag := dag p; store := store p; input := input p;
     checkpoint := checkpoint p; epochState := f (epochState p);
     vecClock := vecClock p; election := election p;
     applyBlock := applyBlock p; applied := applied p |}.

Definition with_vecClock (f : vector.Index -> vector.Index) (p : Poset) : Poset :=
  {| dag := dag p; store := store p; input := input p;
     checkpoint := checkpoint p; epochState := epochState p;
     vecClock := f (vecClock p); election := election p;
     applyBlock := applyBlock p; applied := applied p |}.

Definition with_election (f : election.Election -> election.Election)
    (p : Poset) : Poset :=
  {| dag := dag p; store := store p; input := input p;
     checkpoint := checkpoint p; epochState := epochState p;
     vecClock := vecClock p; election := f (election p);
     applyBlock := applyBlock p; applied := applied p |}.

Definition with_applied (f : list inter.Block -> list inter.Block)
    (p : Poset) : Poset :=
  {| dag := dag p; store := store p; input := input p;
     checkpoint := checkpoint p; epochState := epochState p;
     vecClock := vecClock p; election := election p;
     applyBlock := applyBlock p; applied := f (applied p) |}.

(** [GetEventHeader(epoch, id)]: the header from the event source, [None]
    for Go's [nil]. *)
Definition GetEventHeader (p : Poset) (epoch : Z) (id : EventHash)
    : option inter.EventHeaderData :=
  input p !! (epoch, id).

(** *** poset/gas_power.go *)

(** [calcValidatorGasPowerPerH]: the triple (perHour, maxGasPower, startup);
    [None] when [big.Int.Div] panics. *)
Definition calcValidatorGasPowerPerH (p : Poset) (validator : Address)
    : option (Z * Z * Z) :=
  let stake := pos.Get (Validators (epochState p)) validator in
  if stake =? 0 then Some (0, 0, 0)
  else
    let gas := GasPower (dag p) in
    let validatorGasPowerPerH_bn := TotalPerH gas in
    let validatorGasPowerPerH_bn := big.mul validatorGasPowerPerH_bn stake in
    validatorGasPowerPerH_bn ←
      big.div validatorGasPowerPerH_bn
              (pos.TotalStake (Validators (epochState p)));
    let perHour := big.Uint64 validatorGasPowerPerH_bn in
    let validatorMaxGasPower_bn := validatorGasPowerPerH_bn in
    let validatorMaxGasPower_bn :=
      big.mul validatorMaxGasPower_bn (wrap64 (MaxGasPowerPeriod gas)) in
    validatorMaxGasPower_bn ← big.div validatorMaxGasPower_bn Hour;
    let maxGasPower := big.Uint64 validatorMaxGasPower_bn in
    let validatorStartup_bn := validatorGasPowerPerH_bn in
    let validatorStartup_bn :=
      big.mul validatorStartup_bn (wrap64 (StartupPeriod gas)) in
    validatorStartup_bn ← big.div validatorStartup_bn Hour;
    let startup := big.Uint64 validatorStartup_bn in
    let startup :=
      if startup <? MinStartupGasPower gas then MinStartupGasPower gas
      else startup in
    Some (perHour, maxGasPower, startup).

(** [CalcGasPower]: the gas power available to the event; [None] when the
    code panics (a self-parent that the event source does not have, or a
    division by zero in the regulator). *)
Definition CalcGasPower (p : Poset) (e : inter.EventHeaderData) : option Z :=
  '(gasPowerPerH, maxGasPower, startup) ←
    calcValidatorGasPowerPerH p (inter.Creator e);
  prevGasPowerLeft ←
    match inter.SelfParent e with
    | Some sp =>
        selfParent ← GetEventHeader p (inter.Epoch e) sp;
        Some (inter.GasPowerLeft selfParent)
    | None =>
        match GenesisState.LastHeaders (PrevEpoch (epochState p))
                !! inter.Creator e with
        | Some prevConfirmedHeader =>
            let prevGasPowerLeft := inter.GasPowerLeft prevConfirmedHeader in
            Some (if prevGasPowerLeft <? startup then startup
                  else prevGasPowerLeft)
        | None => Some startup
        end
    end;
  let gasPowerAllocated_bn := 1 in
  let gasPowerAllocated_bn := big.mul gasPowerAllocated_bn gasPowerPerH in
  gasPowerAllocated_bn ← big.div gasPowerAllocated_bn Hour;
  let gasPower := wrap64 (big.Uint64 gasPowerAllocated_bn + prevGasPowerLeft) in
  let gasPower := if maxGasPower <? gasPower then maxGasPower else gasPower in
  Some gasPower.

(** *** The store of the engine *)

Definition with_epochTable (f : EpochTable -> EpochTable) (s : Store) : Store :=
  {| tableEpoch := tableEpoch s; tableCheckpoint := tableCheckpoint s;
     epochDb := epochDb s; epochTable := f (epochTable s) |}.

(** Modelled from the spec: [GetEventConfirmedOn] reads the confirmed-on
    table; an event without a record reads as frame 0 (unset). *)
Definition GetEventConfirmedOn (s : Store) (id : EventHash) : Z :=
  default 0 (ConfirmedEvent (epochTable s) !! id).

(** Modelled from the spec: [SetEventConfirmedOn] writes the record. *)
Definition SetEventConfirmedOn (s : Store) (id : EventHash) (on : Z) : Store :=
  with_epochTable
    (fun t => {| Roots := Roots t; VectorIndex := VectorIndex t;
                 ConfirmedEvent := <[id := on]> (ConfirmedEvent t) |}) s.

(** Modelled from the spec: [SetEpoch] and [SetCheckpoint] persist the
    epoch state and the checkpoint. *)
Definition SetEpoch (s : Store) (e : EpochState) : Store :=
  {| tableEpoch := Some e; tableCheckpoint := tableCheckpoint s;
     epochDb := epochDb s; epochTable := epochTable s |}.

Definition SetCheckpoint (s : Store) (c : Checkpoint) : Store :=
  {| tableEpoch := tableEpoch s; tableCheckpoint := Some c;
     epochDb := epochDb s; epochTable := epochTable s |}.

Definition emptyEpochTable : EpochTable :=
  {| Roots := ∅; VectorIndex := ∅; ConfirmedEvent := ∅ |}.

(** Modelled from the spec: [RecreateEpochDb(n)] drops the epoch database
    and makes the one of epoch [n], with empty tables (section 4.C). *)
Definition RecreateEpochDb (s : Store) (n : Z) : Store :=
  {| tableEpoch := tableEpoch s; tableCheckpoint := tableCheckpoint s;
     epochDb := n; epochTable := emptyEpochTable |}.

(** *** The monad of the engine: state passing, with [Log.Crit] *)

Definition M (A : Type) : Type := Poset -> Poset * outcome A.

Definition ret {A} (a : A) : M A := fun p => (p, Done a).

Definition bind {A B} (m : M A) (k : A -> M B) : M B :=
  fun p =>
    match m p with
    | (p', Done a) => k a p'
    | (p', Crit msg) => (p', Crit msg)
    | (p', Panic msg) => (p', Panic msg)
    | (p', OutOfFuel) => (p', OutOfFuel)
    end.

#[global] Instance M_ret : MRet M := @ret.
#[global] Instance M_bind : MBind M := fun A B k m => bind m k.

Definition gets {A} (f : Poset -> A) : M A := fun p => (p, Done (f p)).
Definition modify (f : Poset -> Poset) : M unit := fun p => (f p, Done tt).

(** [p.Log.Crit(msg)]: log and exit. *)
Definition LogCrit (msg : string) : M unit := fun p => (p, Crit msg).
Definition outOfFuel {A} : M A := fun p => (p, OutOfFuel).

(** [p.saveCheckpoint()] *)
Definition saveCheckpoint : M unit :=
  modify (fun p => with_store (fun s => SetCheckpoint s (checkpoint p)) p).

(** [p.setEpochValidators(validators, epoch)] of [poset/epoch.go] *)
Definition setEpochValidators (validators : gmap N Z) (epoch : Z) : M unit :=
  modify (with_epochState (fun es =>
    {| EpochN := epoch; PrevEpoch := PrevEpoch es; Validators := validators |})).

(** *** The walk of the sub-DAG *)

(** Modelled from the spec: [dfsSubgraph(head, walk)], missing from the
    sources: the depth-first walk of section 4.H, step 1.  It starts at
    [head], calls [walk] on the header of the current event, goes on to the
    parents of the event when [walk] answers [true], and fails when the
    event source does not have an event.  The stack has its top first. *)
Fixpoint dfsLoop (fuel : nat) (walk : inter.EventHeaderData -> M bool)
    (curr : EventHash) (stack : list EventHash) : M (option string) :=
  match fuel with
  | O => outOfFuel
  | S fuel' =>
      event ← gets (fun p => GetEventHeader p (EpochN (epochState p)) curr);
      match event with
      | None => mret (Some "event not found"%string)
      | Some event =>
          godeeper ← walk event;
          let stack :=
            if (godeeper : bool) then rev (inter.Parents event) ++ stack
            else stack in
          match stack with
          | [] => mret None
          | next :: stack' => dfsLoop fuel' walk next stack'
          end
      end
  end.

Definition dfsSubgraph (fuel : nat) (head : EventHash)
    (walk : inter.EventHeaderData -> M bool) : M (option string) :=
  dfsLoop fuel walk head [].

(** *** Frame decision *)

(** The callback of [confirmBlockEvents]. *)
Definition confirmWalk (frame : Z) (header : inter.EventHeaderData) : M bool :=
  decidedFrame ← gets (fun p => GetEventConfirmedOn (store p) (inter.Hash header));
  if negb (decidedFrame =? 0) then mret false
  else
    (* mark all the walked events *)
    modify (with_store (fun s =>
              SetEventConfirmedOn s (inter.Hash header) frame));;
    LogCrit "confirmBlockEvents NOT_IMPLEMENTED yet";;
    mret true.

(** [confirmBlockEvents(frame, atropos)] *)
Definition confirmBlockEvents (fuel : nat) (frame : Z) (atropos : EventHash)
    : M (list inter.EventHeaderData * headersByCreator) :=
  let lastHeaders : headersByCreator := ∅ in
  let blockEvents : list inter.EventHeaderData := [] in
  err ← dfsSubgraph fuel atropos (confirmWalk frame);
  match err with
  | Some _ => LogCrit "Poset: Failed to walk subgraph"
  | None => mret tt
  end;;
  mret (blockEvents, lastHeaders).

Record FrameInfo := {
  LastConsensusTime : Z
}.

Section Frames.

(** Parts of the package that the sources do not contain: [Top()] of the
    stake table, the consensus time of a frame, and the fare ordering. *)
Variable Top : gmap N Z -> gmap N Z.
Variable frameConsensusTime : Poset -> Z -> Z.
Variable fareOrdering :
  Z -> EventHash -> list inter.EventHeaderData ->
  M (list EventHash * FrameInfo).

(** [onFrameDecided] moves [LastDecidedFrame] to [frame]. *)
Definition onFrameDecided (fuel : nat) (frame : Z) (atropos : EventHash)
    : M headersByCreator :=
  modify (fun p => with_election (fun el =>
            election.Reset el (Validators (epochState p)) (wrap32 (frame + 1))) p);;
  modify (with_checkpoint (fun c =>
    {| LastDecidedFrame := frame; LastBlockN := LastBlockN c;
       LastAtropos := LastAtropos c; StateHash := StateHash c;
       NextValidators := NextValidators c |}));;
  '(blockEvents, lastHeaders) ← confirmBlockEvents fuel frame atropos;
  (* ordering *)
  (if (length blockEvents =? 0)%nat
   then LogCrit "Frame is decided with no events. It isn't possible."
   else mret tt);;
  '(ordered, frameInfo) ← fareOrdering frame atropos blockEvents;
  (* block generation *)
  modify (with_checkpoint (fun c =>
    {| LastDecidedFrame := LastDecidedFrame c;
       LastBlockN := wrap64 (LastBlockN c + 1);
       LastAtropos := LastAtropos c; StateHash := StateHash c;
       NextValidators := NextValidators c |}));;
  modify (fun p =>
    match applyBlock p with
    | Some apply =>
        let c := checkpoint p in
        let block :=
          inter.NewBlock (LastBlockN c) (LastConsensusTime frameInfo)
                         ordered (LastAtropos c) in
        let '(stateHash, nextValidators) :=
          apply block (StateHash c) (NextValidators c) in
        with_applied (cons block)
          (with_checkpoint (fun c =>
             {| LastDecidedFrame := LastDecidedFrame c;
                LastBlockN := LastBlockN c;
                LastAtropos := LastAtropos c; StateHash := stateHash;
                NextValidators := nextValidators |}) p)
    | None => p
    end);;
  modify (with_checkpoint (fun c =>
    {| LastDecidedFrame := LastDecidedFrame c; LastBlockN := LastBlockN c;
       LastAtropos := atropos; StateHash := StateHash c;
       NextValidators := Top (NextValidators c) |}));;
  saveCheckpoint;;
  mret lastHeaders.

(** *** Epoch sealing *)

Definition isEpochSealed (p : Poset) : bool :=
  EpochLen (dag p) <=? LastDecidedFrame (checkpoint p).

Definition onNewEpoch (atropos : EventHash) (lastHeaders : headersByCreator)
    : M unit :=
  (* new PrevEpoch state *)
  modify (fun p => with_epochState (fun es =>
    {| EpochN := EpochN es;
       PrevEpoch :=
         {| GenesisState.Time :=
              frameConsensusTime p (LastDecidedFrame (checkpoint p));
            GenesisState.Epoch := EpochN es;
            GenesisState.LastAtropos := atropos;
            GenesisState.StateHash := StateHash (checkpoint p);
            GenesisState.LastHeaders := lastHeaders |};
       Validators := Validators es |}) p);;
  (* new validators list, move to new epoch *)
  nextValidators ← gets (fun p => NextValidators (checkpoint p));
  epochN ← gets (fun p => EpochN (epochState p));
  setEpochValidators (Top nextValidators) (wrap32 (epochN + 1));;
  modify (fun p => with_checkpoint (fun c =>
    {| LastDecidedFrame := 0; LastBlockN := LastBlockN c;
       LastAtropos := LastAtropos c; StateHash := StateHash c;
       NextValidators := Validators (epochState p) |}) p);;
  (* commit *)
  modify (fun p => with_store (fun s => SetEpoch s (epochState p)) p);;
  saveCheckpoint;;
  (* reset internal epoch DB *)
  modify (fun p => with_store (fun s =>
            RecreateEpochDb s (EpochN (epochState p))) p);;
  (* reset election & vectorindex to new epoch db *)
  modify (fun p => with_vecClock (fun vc =>
            vector.Reset vc (Validators (epochState p))) p);;
  modify (fun p => with_election (fun el =>
            election.Reset el (Validators (epochState p)) firstFrame) p).

Definition tryToSealEpoch (atropos : EventHash)
    (lastHeaders : headersByCreator) : M bool :=
  sealed ← gets isEpochSealed;
  if negb sealed then mret false
  else
    onNewEpoch atropos lastHeaders;;
    mret true.

End Frames.

End poset.

(** ** package gossip: consensus callbacks *)

Module gossip.

Inductive error : Type :=
| ErrAlreadyConnectedEvent
| ErrOther (msg : string).

(** Modelled from the spec: the store of the service (section 4.C), with
    the tables that [processEvent] and [spillBlockEvents] use: events by
    hash, headers by (epoch, hash), the last event of a validator by
    (epoch, creator), and the heads by (epoch, hash). *)
Record Store := {
  Events : gmap N inter.Event;
  EventHeaders : gmap (Z * N) inter.EventHeaderData;
  LastEvents : gmap (Z * N) N;
  Heads : gset (Z * N)
}.

Definition HasEvent (st : Store) (h : EventHash) : bool :=
  bool_decide (is_Some (Events st !! h)).

Definition GetEvent (st : Store) (h : EventHash) : option inter.Event :=
  Events st !! h.

Definition SetEvent (e : inter.Event) (st : Store) : Store :=
  {| Events := <[inter.Hash e := e]> (Events st);
     EventHeaders :=
       <[(inter.Epoch e, inter.Hash e) := inter.header e]> (EventHeaders st);
     LastEvents := LastEvents st; Heads := Heads st |}.

Definition DeleteEvent (epoch : Z) (id : EventHash) (st : Store) : Store :=
  {| Events := delete id (Events st);
     EventHeaders := delete (epoch, id) (EventHeaders st);
     LastEvents := LastEvents st; Heads := Heads st |}.

Definition SetLastEvent (epoch : Z) (from : Address) (id : EventHash)
    (st : Store) : Store :=
  {| Events := Events st; EventHeaders := EventHeaders st;
     LastEvents := <[(epoch, from) := id]> (LastEvents st);
     Heads := Heads st |}.

Definition DelHead (epoch : Z) (id : EventHash) (st : Store) : Store :=
  {| Events := Events st; EventHeaders := EventHeaders st;
     LastEvents := LastEvents st; Heads := Heads st ∖ {[ (epoch, id) ]} |}.

Definition AddHead (epoch : Z) (id : EventHash) (st : Store) : Store :=
  {| Events := Events st; EventHeaders := EventHeaders st;
     LastEvents := LastEvents st; Heads := Heads st ∪ {[ (epoch, id) ]} |}.

(** [config.Net]: the options that the callbacks read. *)
Record Config := {
  BlockGasHardLimit : Z;
  EpochLen : Z
}.

Section Service.

(** The collaborators of the service that are out of scope (transaction
    tracking, packs, emitter, checkers, feeds): their state is [Ext]. *)
Context {Ext : Type}.

Record Service := {
  store : Store;
  config : Config;
  ext : Ext
}.

Definition with_store (f : Store -> Store) (s : Service) : Service :=
  {| store := f (store s); config := config s; ext := ext s |}.

(** The [Consensus] interface, as far as [processEvent] calls it.  The
    engine calls back into the service, so it acts on the whole state. *)
Record Consensus := {
  ProcessEvent : inter.Event -> Service -> Service * option error;
  GetEpoch : Service -> Z
}.

(** The calls of [processEvent] into the collaborators. *)
Class Collaborators := {
  CollectNotConfirmedTxs : list N -> Service -> Service;
  packsOnNewEvent : inter.Event -> Z -> Service -> Service;
  emitterOnNewEvent : inter.Event -> Service -> Service;
  storeEpochPubKeys : Z -> Service -> Service;
  storeGasPowerContext : Z -> Service -> Service;
  packsOnNewEpoch : Z -> Z -> Service -> Service;
  delEpochStore : Z -> Service -> Service;
  getEpochStore : Z -> Service -> Service;
  occurredTxsClear : Service -> Service;
  feedNewEpoch : Z -> Service -> Service;
  Commit : EventHash -> bool -> Service -> Service * option error
}.

Context {collaborators : Collaborators}.

(** [processEvent] extends the engine's [ProcessEvent] with the actions of
    the service on each event.  The result is the state and the error
    ([None] for [nil]). *)
Definition processEvent (realEngine : option Consensus) (e : inter.Event)
    (s : Service) : Service * option error :=
  if HasEvent (store s) (inter.Hash e) then (s, Some ErrAlreadyConnectedEvent)
  else
    let oldEpoch := inter.Epoch e in
    let s := with_store (SetEvent e) s in
    let '(s, err) :=
      match realEngine with
      | Some engine => ProcessEvent engine e s
      | None => (s, None)
      end in
    match err with
    | Some err =>
        (with_store (DeleteEvent (inter.Epoch e) (inter.Hash e)) s, Some err)
    | None =>
        let s := CollectNotConfirmedTxs (inter.Transactions e) s in
        let s := with_store
                   (SetLastEvent (inter.Epoch e) (inter.Creator e) (inter.Hash e)) s in
        let s := fold_left
                   (fun s parent => with_store (DelHead (inter.Epoch e) parent) s)
                   (inter.Parents e) s in
        let s := with_store (AddHead (inter.Epoch e) (inter.Hash e)) s in
        let s := packsOnNewEvent e (inter.Epoch e) s in
        let s := emitterOnNewEvent e s in
        let newEpoch :=
          match realEngine with
          | Some engine => GetEpoch engine s
          | None => oldEpoch
          end in
        let s :=
          if negb (newEpoch =? oldEpoch) then
            let s := storeEpochPubKeys newEpoch s in
            let s := storeGasPowerContext newEpoch s in
            let s := packsOnNewEpoch oldEpoch newEpoch s in
            let s := delEpochStore oldEpoch s in
            let s := getEpochStore newEpoch s in
            let s := occurredTxsClear s in
            feedNewEpoch newEpoch s
          else s in
        let immediately := negb (newEpoch =? oldEpoch) in
        Commit (inter.Hash e) immediately s
    end.

(** The block with another event list: [block.Events = events]. *)
Definition setEvents (block : inter.Block) (events : list EventHash)
    : inter.Block :=
  {| inter.Index := inter.Index block; inter.Time := inter.Time block;
     inter.Events := events; inter.Atropos := inter.Atropos block;
     inter.PrevHash := inter.PrevHash block |}.

(** The loop of [spillBlockEvents], at index [i]: it runs from the last
    index down to 0. *)
Fixpoint spillLoop (s : Service) (block : inter.Block) (i : nat)
    (gasPowerUsedSum : Z) (fullEvents : list (option inter.Event))
    : outcome (inter.Block * list (option inter.Event)) :=
  match inter.Events block !! i with
  | None => Panic "index out of range"
  | Some id =>
      match GetEvent (store s) id with
      | None => Crit "Event not found"
      | Some e =>
          let fullEvents := <[i := Some e]> fullEvents in
          let gasPowerUsedSum := wrap64 (gasPowerUsedSum + inter.GasPowerUsed e) in
          (* stop if limit is exceeded, erase [:i] events *)
          if BlockGasHardLimit (config s) <? gasPowerUsedSum then
            (* spill *)
            Done (setEvents block (drop (S i) (inter.Events block)),
                  drop (S i) fullEvents)
          else
            match i with
            | O => Done (block, fullEvents)
            | S i' => spillLoop s block i' gasPowerUsedSum fullEvents
            end
      end
  end.

(** [spillBlockEvents] excludes first events which exceed
    [BlockGasHardLimit]. *)
Definition spillBlockEvents (s : Service) (block : inter.Block)
    : outcome (inter.Block * list (option inter.Event)) :=
  let fullEvents : list (option inter.Event) :=
    replicate (length (inter.Events block)) None in
  if (length (inter.Events block) =? 0)%nat then Done (block, fullEvents)
  else spillLoop s block (length (inter.Events block) - 1) 0 fullEvents.

End Service.

Arguments Service : clear implicits.
Arguments Consensus : clear implicits.
Arguments Collaborators : clear implicits.

End gossip.

(** ** The regulator in the words of the specification (section 4.I) *)

Module spec.

(** Allocated since parent = perHour(v) * dt / 1h. *)
Definition allocated (perHour dt : Z) : Z := perHour * dt / Hour.

(** GasPowerAvailable = min(priorLeft + allocated, max(v)). *)
Definition GasPowerAvailable (priorLeft perHour maxv dt : Z) : Z :=
  Z.min (priorLeft + allocated perHour dt) maxv.

(** Prior left = self-parent.GasPowerLeft if present; else
    max(PrevEpoch.LastHeaders[v].GasPowerLeft, startup(v)); else startup(v).
    [None] when the self-parent is not in the event source. *)
Definition priorLeft (p : poset.Poset) (e : inter.EventHeaderData)
    (startup : Z) : option Z :=
  match inter.SelfParent e with
  | Some sp =>
      inter.GasPowerLeft <$> poset.GetEventHeader p (inter.Epoch e) sp
  | None =>
      Some (match GenesisState.LastHeaders
                    (poset.PrevEpoch (poset.epochState p))
                    !! inter.Creator e with
            | Some h => Z.max (inter.GasPowerLeft h) startup
            | None => startup
            end)
  end.

End spec.

(** ** Sums of gas, for the statements about [spillBlockEvents] *)

Definition gasOf (st : gossip.Store) (id : EventHash) : Z :=
  from_option (fun e : inter.Event => inter.GasPowerUsed e) 0
              (gossip.GetEvent st id).

Definition gasSum (st : gossip.Store) (ids : list EventHash) : Z :=
  foldr (fun id acc => acc + gasOf st id) 0 ids.

(** ** Concrete states and events *)

Module ex.

Definition second : Z := 1000000000.

(** The regulator scenario of section 8: 360000 per hour in total, a
    validator with stake 250 of 1000. *)
Definition cfg : poset.DagConfig :=
  {| poset.EpochLen := 10; poset.MaxParents := 3;
     poset.MaxValidatorEventsInBlock := 50;
     poset.GasPower :=
       {| poset.TotalPerH := 360000;
          poset.MaxGasPowerPeriod := 10 * second;
          poset.StartupPeriod := 5 * second;
          poset.MinStartupGasPower := 100 |} |}.

Definition vals : gmap N Z := <[1%N := 250]> (<[2%N := 750]> ∅).

Definition genesis : GenesisState.t :=
  {| GenesisState.Epoch := 0; GenesisState.Time := 0;
     GenesisState.LastAtropos := 0%N; GenesisState.StateHash := 0%N;
     GenesisState.LastHeaders := ∅ |}.

Definition st0 : poset.Store :=
  {| poset.tableEpoch := None; poset.tableCheckpoint := None;
     poset.epochDb := 1; poset.epochTable := poset.emptyEpochTable |}.

Definition mkHeader (h : N) (creator : N) (seq : Z) (ps : list N)
    (used left claimed : Z) : inter.EventHeaderData :=
  {| inter.Hash := h; inter.Epoch := 1; inter.Seq := seq; inter.Frame := 1;
     inter.Creator := creator; inter.Lamport := seq; inter.Parents := ps;
     inter.GasPowerUsed := used; inter.GasPowerLeft := left;
     inter.ClaimedTime := claimed |}.

(** Event 100: the first event of validator 1, with 100 gas power left.
    Events 101 and 102 have it as self-parent; 101 claims a time two
    seconds later; 102 is by address 3, which has no stake. *)
Definition h100 : inter.EventHeaderData := mkHeader 100 1 1 [] 0 100 0.
Definition h101 : inter.EventHeaderData :=
  mkHeader 101 1 2 [100%N] 0 0 (2 * second).
Definition h102 : inter.EventHeaderData :=
  mkHeader 102 3 2 [100%N] 0 0 (2 * second).

(** An engine in epoch 1 whose event source holds [headers], with
    [lastDecided] frames decided. *)
Definition engine (headers : gmap (Z * N) inter.EventHeaderData)
    (confirmed : gmap N Z) (lastDecided : Z) : poset.Poset :=
  {| poset.dag := cfg;
     poset.store :=
       {| poset.tableEpoch := None; poset.tableCheckpoint := None;
          poset.epochDb := 1;
          poset.epochTable :=
            {| poset.Roots := ∅; poset.VectorIndex := ∅;
               poset.ConfirmedEvent := confirmed |} |};
     poset.input := headers;
     poset.checkpoint :=
       {| poset.LastDecidedFrame := lastDecided; poset.LastBlockN := 0;
          poset.LastAtropos := 0%N; poset.StateHash := 0%N;
          poset.NextValidators := vals |};
     poset.epochState :=
       {| poset.EpochN := 1; poset.PrevEpoch := genesis;
          poset.Validators := vals |};
     poset.vecClock := {| vector.validators := vals; vector.cache := ∅ |};
     poset.election :=
       {| election.frameToDecide := 1; election.validators := vals;
          election.decidedRoots := ∅; election.votes := ∅ |};
     poset.applyBlock := Some (fun _ sh vv => (sh, vv));
     poset.applied := [] |}.

Definition p0 : poset.Poset := engine ∅ ∅ 0.
Definition p1 : poset.Poset := engine {[ (1, 100%N) := h100 ]} ∅ 0.
Definition p1confirmed : poset.Poset :=
  engine {[ (1, 100%N) := h100 ]} {[ 100%N := 1 ]} 1.

(** Stand-ins for the parts that the sources do not contain. *)
Definition Top (vv : gmap N Z) : gmap N Z := vv.
Definition frameConsensusTime (p : poset.Poset) (frame : Z) : Z := frame.
Definition fareOrdering (frame : Z) (atropos : EventHash)
    (events : list inter.EventHeaderData)
    : poset.M (list EventHash * poset.FrameInfo) :=
  poset.ret (map inter.Hash events, {| poset.LastConsensusTime := frame |}).

(** Events of the service: [used] gas each, no transactions. *)
Definition mkEvent (h : N) (used : Z) : inter.Event :=
  {| inter.header := mkHeader h 1 1 [] used 0 0; inter.Transactions := [] |}.

Definition gstore (es : list inter.Event) : gossip.Store :=
  {| gossip.Events := list_to_map (map (fun e : inter.Event => (inter.Hash e, e)) es);
     gossip.EventHeaders := ∅; gossip.LastEvents := ∅; gossip.Heads := ∅ |}.

Definition service (es : list inter.Event) (limit : Z) : gossip.Service unit :=
  {| gossip.store := gstore es;
     gossip.config := {| gossip.BlockGasHardLimit := limit; gossip.EpochLen := 10 |};
     gossip.ext := tt |}.

Definition block (ids : list N) : inter.Block :=
  {| inter.Index := 1; inter.Time := 0; inter.Events := ids;
     inter.Atropos := 0%N; inter.PrevHash := 0%N |}.

(** Collaborators that do nothing, and an engine that rejects every
    event. *)
Definition idle : gossip.Collaborators unit :=
  {| gossip.CollectNotConfirmedTxs := fun _ s => s;
     gossip.packsOnNewEvent := fun _ _ s => s;
     gossip.emitterOnNewEvent := fun _ s => s;
     gossip.storeEpochPubKeys := fun _ s => s;
     gossip.storeGasPowerContext := fun _ s => s;
     gossip.packsOnNewEpoch := fun _ _ s => s;
     gossip.delEpochStore := fun _ s => s;
     gossip.getEpochStore := fun _ s => s;
     gossip.occurredTxsClear := fun s => s;
     gossip.feedNewEpoch := fun _ s => s;
     gossip.Commit := fun _ _ s => (s, None) |}.

Definition rejecting : gossip.Consensus unit :=
  {| gossip.ProcessEvent :=
       fun _ s => (s, Some (gossip.ErrOther "wrong event epoch hash"));
     gossip.GetEpoch := fun _ => 1 |}.

End ex.

(** ** package kvdb: the in-memory database (memory_database.go)

    A byte slice is a list of characters; a value may be Go's [nil]:
    [None].  All the handles made from one [NewMemDatabase] share its map:
    the map is the state that the operations pass on, and a handle records
    whether its [db] field still refers to it ([Close] sets the field to
    [nil]) and its prefix. *)

Module kvdb.

Abbreviation bytes := (list ascii) (only parsing).
Abbreviation value := (option (list ascii)) (only parsing).
Abbreviation Map := (gmap (list ascii) (option (list ascii))) (only parsing).
Abbreviation error := (option string) (only parsing).

(** NOTE: key collisions are possible *)
Definition separator : bytes := [":"; ":"]%char.

(** [common.CopyBytes], which the sources do not contain: a fresh copy of
    the slice, [nil] for [nil]; on values, the identity. *)
Definition CopyBytes {A} (b : A) : A := b.

Record MemDatabase := {
  db : bool;
  prefix : bytes
}.

(** [NewMemDatabase]: a handle on a fresh, empty map. *)
Definition NewMemDatabase : MemDatabase * Map :=
  ({| db := true; prefix := [] |}, ∅).

(** [NewTable] returns a handle that prefixes all keys with a given
    prefix. *)
Definition NewTable (w : MemDatabase) (prefix' : bytes) : MemDatabase :=
  let base := CopyBytes (prefix w) in
  {| db := db w; prefix := (base ++ ["-"%char]) ++ prefix' |}.

Definition fullKey (w : MemDatabase) (key : bytes) : bytes :=
  let base := CopyBytes (prefix w) in
  (base ++ separator) ++ key.

(** [Put]: an assignment to an entry of a [nil] map panics. *)
Definition Put (w : MemDatabase) (key : bytes) (v : value) (m : Map)
    : outcome (Map * error) :=
  let key := fullKey w key in
  if db w then Done (<[key := CopyBytes v]> m, None)
  else Panic "assignment to entry in nil map".

(** [Has]: a [nil] map has no key. *)
Definition Has (w : MemDatabase) (key : bytes) (m : Map) : bool * error :=
  let key := fullKey w key in
  (if db w then bool_decide (is_Some (m !! key)) else false, None).

Definition Get (w : MemDatabase) (key : bytes) (m : Map) : value * error :=
  let key := fullKey w key in
  match (if db w then m !! key else None) with
  | Some entry => (CopyBytes entry, None)
  | None => (None, None)
  end.

(** [Delete]: deleting from a [nil] map does nothing. *)
Definition Delete (w : MemDatabase) (key : bytes) (m : Map) : Map * error :=
  let key := fullKey w key in
  (if db w then delete key m else m, None).

(** [Close] leaves the underlying map. *)
Definition Close (w : MemDatabase) : MemDatabase :=
  {| db := false; prefix := prefix w |}.

(** The loop of [ForEach] over the entries of the map, in the order of
    the scan.  [do] is the callback, acting on a state of its own. *)
Fixpoint forEachLoop {S} (w : MemDatabase) (prefix' : bytes)
    (do : S -> bytes -> value -> S * bool)
    (entries : list (list ascii * option (list ascii))) (s : S) : S :=
  match entries with
  | [] => s
  | (k0, val) :: rest =>
      let key := CopyBytes k0 in
      if bool_decide (prefix' `prefix_of` key) then
        let key := drop (length (prefix w) + length separator) key in
        let '(s', continue) := do s key val in
        if (continue : bool) then forEachLoop w prefix' do rest s' else s'
      else forEachLoop w prefix' do rest s
  end.

(** [ForEach] scans key-value pairs by key prefix.  Go leaves the order of
    a range over a map unspecified; the scan of the embedding takes the
    order of [map_to_list]. *)
Definition ForEach {S} (w : MemDatabase) (prefix' : bytes)
    (do : S -> bytes -> value -> S * bool) (m : Map) (s : S) : S * error :=
  let prefix' := fullKey w prefix' in
  (forEachLoop w prefix' do (if db w then map_to_list m else []) s, None).

(** A callback that records the pairs it is called with and goes on. *)
Definition collect (s : list (list ascii * option (list ascii)))
    (key : bytes) (val : value)
    : list (list ascii * option (list ascii)) * bool :=
  (s ++ [(key, val)], true).

(** *** Batch *)

Record kv := {
  k : bytes;
  v : value;
  del : bool
}.

(** [size] is an [int]: 64 bits, signed. *)
Definition wrapInt (x : Z) : Z := (x + 2 ^ 63) mod 2 ^ 64 - 2 ^ 63.

Definition len (b : value) : Z :=
  match b with
  | Some b => Z.of_nat (length b)
  | None => 0
  end.

(** The batch refers to its database by pointer: [bdb] is the handle as
    the operation finds it. *)
Record memBatch := {
  bdb : MemDatabase;
  writes : list kv;
  size : Z
}.

Definition NewBatch (w : MemDatabase) : memBatch :=
  {| bdb := w; writes := []; size := 0 |}.

(** [memBatch.Put] puts the key-value pair into the batch. *)
Definition BatchPut (b : memBatch) (key : bytes) (val : value)
    : memBatch * error :=
  let key := fullKey (bdb b) key in
  ({| bdb := bdb b;
      writes := writes b ++ [ {| k := CopyBytes key; v := CopyBytes val;
                                 del := false |} ];
      size := wrapInt (size b + len val) |}, None).

(** [memBatch.Delete] *)
Definition BatchDelete (b : memBatch) (key : bytes) : memBatch * error :=
  let key := fullKey (bdb b) key in
  ({| bdb := bdb b;
      writes := writes b ++ [ {| k := CopyBytes key; v := None; del := true |} ];
      size := wrapInt (size b + 1) |}, None).

(** The loop of [Write], over the remaining writes. *)
Fixpoint writeLoop (w : MemDatabase) (ws : list kv) (m : Map) : outcome Map :=
  match ws with
  | [] => Done m
  | e :: ws' =>
      if del e then writeLoop w ws' (if db w then delete (k e) m else m)
      else if db w then writeLoop w ws' (<[k e := v e]> m)
      else Panic "assignment to entry in nil map"
  end.

(** [Write] writes the batch into the database. *)
Definition Write (b : memBatch) (m : Map) : outcome (Map * error) :=
  match writeLoop (bdb b) (writes b) m with
  | Done m' => Done (m', None)
  | Crit msg => Crit msg
  | Panic msg => Panic msg
  | OutOfFuel => OutOfFuel
  end.

Definition ValueSize (b : memBatch) : Z := size b.

(** [Reset] cleans the whole batch. *)
Definition Reset (b : memBatch) : memBatch :=
  {| bdb := bdb b; writes := take 0 (writes b); size := 0 |}.

(** A sequence of operations, to compare a batch with direct writes. *)
Inductive op : Type :=
| OpPut (key : bytes) (val : value)
| OpDelete (key : bytes).

(** The operations, one by one, on the database. *)
Fixpoint direct (w : MemDatabase) (ops : list op) (m : Map) : outcome Map :=
  match ops with
  | [] => Done m
  | OpPut key val :: ops' =>
      match Put w key val m with
      | Done (m', _) => direct w ops' m'
      | Crit msg => Crit msg
      | Panic msg => Panic msg
      | OutOfFuel => OutOfFuel
      end
  | OpDelete key :: ops' => direct w ops' (fst (Delete w key m))
  end.

(** The operations, collected in a batch. *)
Definition batched (b : memBatch) (ops : list op) : memBatch :=
  fold_left (fun b o =>
               match o with
               | OpPut key val => fst (BatchPut b key val)
               | OpDelete key => fst (BatchDelete b key)
               end) ops b.

(** The size that a batch of the operations reports, without overflow. *)
Definition opsSize (ops : list op) : Z :=
  foldr (fun o acc =>
           match o with
           | OpPut _ val => len val + acc
           | OpDelete _ => 1 + acc
           end) 0 ops.

End kvdb.

(** ** package no_key_is_err (wrapper.go) *)

Module no_key_is_err.

Definition errNotFound : string := "not found".

(** [Wrapper.Get] implements ETH-style Get: an error if the key is not
    found.  [get] is the [Get] of the wrapped store. *)
Definition Get {K} (get : K -> option (list ascii) * option string) (key : K)
    : option (list ascii) * option string :=
  let '(val, err) := get key in
  match val, err with
  | None, None => (None, Some errNotFound)
  | _, _ => (val, err)
  end.

End no_key_is_err.

(** ** package gossip: more of consensus_callbacks.go *)

Module callbacks.

(** The block of this version of the package: [inter.Block] with the
    indexes of the skipped transactions ([SkippedTxs], a [[]uint]). *)
Record Block := {
  base : inter.Block;
  SkippedTxs : list Z
}.

(** [evmcore.EvmBlock]: a header, of a type [H] that the sources do not
    contain, and the transactions. *)
Record EvmBlock {H : Type} := {
  EvmHeader : H;
  Transactions : list N
}.
Arguments EvmBlock : clear implicits.

(** The loop of [filterSkippedTxs], at the transaction of index [i]. *)
Fixpoint filterLoop (skipped : list Z) (txs : list N) (i skipCount : nat)
    (filteredTxs : list N) : list N :=
  match txs with
  | [] => filteredTxs
  | tx :: txs' =>
      if (skipCount <? length skipped)%nat &&
         match skipped !! skipCount with
         | Some x => x =? Z.of_nat i
         | None => false
         end
      then filterLoop skipped txs' (S i) (S skipCount) filteredTxs
      else filterLoop skipped txs' (S i) skipCount (filteredTxs ++ [tx])
  end.

(** [filterSkippedTxs] filters the skipped transactions out of the block. *)
Definition filterSkippedTxs {H} (block : Block) (evmBlock : EvmBlock H)
    : EvmBlock H :=
  let filteredTxs := filterLoop (SkippedTxs block) (Transactions evmBlock) 0 0 [] in
  {| EvmHeader := EvmHeader evmBlock; Transactions := filteredTxs |}.

(** The transactions whose index, counted from [i], is not in [skipped]. *)
Fixpoint dropIndices (skipped : list Z) (i : nat) (txs : list N) : list N :=
  match txs with
  | [] => []
  | tx :: txs' =>
      if decide (Z.of_nat i ∈ skipped) then dropIndices skipped (S i) txs'
      else tx :: dropIndices skipped (S i) txs'
  end.

(** The loop of [assembleEvmBlock]: it ranges over the events that
    [spillBlockEvents] returned, and appends to the transactions and to
    [blockEvents]. *)
Fixpoint assembleLoop (range : list (option inter.Event)) (txs : list N)
    (blockEvents : list (option inter.Event))
    : outcome (list N * list (option inter.Event)) :=
  match range with
  | [] => Done (txs, blockEvents)
  | None :: _ => Panic "nil pointer dereference"
  | Some e :: range' =>
      assembleLoop range' (txs ++ inter.Transactions e) (blockEvents ++ [Some e])
  end.

Section Assemble.
Context {Ext H : Type}.

(** [evmcore.ToEvmHeader], which the sources do not contain. *)
Variable ToEvmHeader : Block -> H.

(** [assembleEvmBlock] converts the block to an [EvmBlock]. *)
Definition assembleEvmBlock (s : gossip.Service Ext) (block : Block)
    : outcome (EvmBlock H * list (option inter.Event)) :=
  if negb (length (SkippedTxs block) =? 0)%nat
  then Crit "Building with SkippedTxs isn't supported"
  else
    match gossip.spillBlockEvents s (base block) with
    | Done (base', blockEvents) =>
        let block := {| base := base'; SkippedTxs := SkippedTxs block |} in
        (* Assemble block data *)
        match assembleLoop blockEvents [] blockEvents with
        | Done (txs, blockEvents) =>
            Done ({| EvmHeader := ToEvmHeader block; Transactions := txs |},
                  blockEvents)
        | Crit msg => Crit msg
        | Panic msg => Panic msg
        | OutOfFuel => OutOfFuel
        end
    | Crit msg => Crit msg
    | Panic msg => Panic msg
    | OutOfFuel => OutOfFuel
    end.

End Assemble.

(** The transactions of a list of events. *)
Definition transactionsOf (events : list (option inter.Event)) : list N :=
  mjoin ((fun e => from_option inter.Transactions [] e) <$> events).

(** A call into a collaborator that leaves the tables of the store as
    they are. *)
Definition keepsStore {Ext} (f : gossip.Service Ext -> gossip.Service Ext)
    : Prop :=
  forall s, gossip.store (f s) = gossip.store s.

End callbacks.

(** ** package election: the roots that are not decided (election.go) *)

Module roots.

(** [notDecidedRoots] returns the root slots which are not within
    [decidedRoots]; the members of the election are its [validators].  The
    order of Go's range over the members is unspecified: the embedding
    takes the order of [map_to_list].  [el.Fatal] logs and exits: [Crit]. *)
Definition notDecidedRoots (el : election.Election) : outcome (list N) :=
  let notDecidedRoots :=
    (map_to_list
       (filter (fun kv => election.decidedRoots el !! kv.1 = None)
               (election.validators el))).*1 in
  if negb (length notDecidedRoots + size (election.decidedRoots el)
           =? size (election.validators el))%nat
  then Crit "Mismatch of roots"
  else Done notDecidedRoots.

End roots.

(** ** The allocation of the regulator, in total *)

(** The gas power per hour of a validator, 0 when the regulator panics. *)
Definition perHourOf (p : poset.Poset) (validator : Address) : Z :=
  match poset.calcValidatorGasPowerPerH p validator with
  | Some (perHour, _, _) => perHour
  | None => 0
  end.

(** The sum of the gas power per hour over the validators. *)
Definition totalPerHour (p : poset.Poset) : Z :=
  foldr (fun kv acc => perHourOf p kv.1 + acc) 0
        (map_to_list (poset.Validators (poset.epochState p))).

(** ** More concrete values *)

Module ex2.

Definition bs (s : string) : list ascii := list_ascii_of_string s.

Definition root : kvdb.MemDatabase := fst kvdb.NewMemDatabase.

(** Three events with two, no and one transaction. *)
Definition mkTxEvent (h : N) (used : Z) (txs : list N) : inter.Event :=
  {| inter.header := ex.mkHeader h 1 1 [] used 0 0; inter.Transactions := txs |}.

Definition events3 : list inter.Event :=
  [mkTxEvent 1 1 [11; 12]%N; mkTxEvent 2 1 []; mkTxEvent 3 1 [31]%N].

Definition block3 : callbacks.Block :=
  {| callbacks.base := ex.block [1; 2; 3]%N; callbacks.SkippedTxs := [] |}.

(** An engine that accepts every event and stays in epoch 1. *)
Definition accepting : gossip.Consensus unit :=
  {| gossip.ProcessEvent := fun _ s => (s, None);
     gossip.GetEpoch := fun _ => 1 |}.

(** Event 9, with the parents 7 and 8. *)
Definition child : inter.Event :=
  {| inter.header := ex.mkHeader 9 1 2 [7; 8]%N 0 0 0;
     inter.Transactions := [] |}.

Definition withHeads (heads : gset (Z * N)) : gossip.Service unit :=
  {| gossip.store :=
       {| gossip.Events := ∅; gossip.EventHeaders := ∅;
          gossip.LastEvents := ∅; gossip.Heads := heads |};
     gossip.config :=
       {| gossip.BlockGasHardLimit := 10; gossip.EpochLen := 10 |};
     gossip.ext := tt |}.

Definition el0 : election.Election :=
  {| election.frameToDecide := 1; election.validators := ex.vals;
     election.decidedRoots :=
       {[ 1%N := {| election.decided := true; election.yes := true;
                    election.seenRoot := 100%N |} ]};
     election.votes := ∅ |}.

End ex2.

(** * Theorems *)

(** ** Machine integers *)

Lemma wrap64_id x : is_uint64 x -> wrap64 x = x.
Proof. intros H. apply Z.mod_small. exact H. Qed.

Lemma wrap64_range x : is_uint64 (wrap64 x).
Proof. unfold is_uint64, wrap64. apply Z.mod_pos_bound. lia. Qed.

Lemma wrap64_add_l x y : wrap64 (wrap64 x + y) = wrap64 (x + y).
Proof. unfold wrap64. apply Zplus_mod_idemp_l. Qed.

(** ** The stake table *)

Section StakeTable.
Implicit Types (vv m : gmap N Z) (a i : N).

Lemma stake_sum_insert m i x :
  m !! i = None -> pos.stake_sum (<[i := x]> m) = pos.stake_sum m + x.
Proof.
  intros Hi. unfold pos.stake_sum.
  rewrite map_fold_insert_L; [reflexivity | | exact Hi].
  intros. lia.
Qed.

Lemma TotalStake_insert m i x :
  m !! i = None ->
  pos.TotalStake (<[i := x]> m) = wrap64 (pos.TotalStake m + x).
Proof.
  intros Hi. unfold pos.TotalStake.
  rewrite map_fold_insert_L; [reflexivity | | exact Hi].
  intros. rewrite !wrap64_add_l. f_equal. lia.
Qed.

(** The accumulated total is the sum of the stakes, narrowed once. *)
Lemma TotalStake_wrap vv : pos.TotalStake vv = wrap64 (pos.stake_sum vv).
Proof.
  induction vv as [| i x m Hi IH] using map_ind.
  - reflexivity.
  - rewrite TotalStake_insert, stake_sum_insert by exact Hi.
    rewrite IH. apply wrap64_add_l.
Qed.

Lemma stake_sum_nonneg vv :
  map_Forall (fun _ s => 0 <= s) vv -> 0 <= pos.stake_sum vv.
Proof.
  induction vv as [| i x m Hi IH] using map_ind; intros Hall.
  - unfold pos.stake_sum. rewrite map_fold_empty. lia.
  - apply map_Forall_insert in Hall as [Hx Hm]; [| exact Hi].
    rewrite stake_sum_insert by exact Hi. specialize (IH Hm). lia.
Qed.

(** A stake is at most the total. *)
Lemma Get_le_stake_sum vv a :
  map_Forall (fun _ s => 0 <= s) vv -> 0 <= pos.Get vv a <= pos.stake_sum vv.
Proof.
  induction vv as [| i x m Hi IH] using map_ind; intros Hall.
  - unfold pos.Get, pos.stake_sum.
    rewrite lookup_empty, map_fold_empty. simpl. lia.
  - apply map_Forall_insert in Hall as [Hx Hm]; [| exact Hi].
    rewrite stake_sum_insert by exact Hi.
    pose proof (stake_sum_nonneg m Hm) as Hs. specialize (IH Hm).
    unfold pos.Get in *. destruct (decide (i = a)) as [-> | Hne].
    + rewrite lookup_insert_eq. simpl. lia.
    + rewrite lookup_insert_ne by exact Hne. lia.
Qed.

Lemma TotalStake_wf vv : pos.wf vv -> pos.TotalStake vv = pos.stake_sum vv.
Proof.
  intros [Hall Hlt]. rewrite TotalStake_wrap. apply wrap64_id.
  split; [apply stake_sum_nonneg; exact Hall | exact Hlt].
Qed.

End StakeTable.

Lemma ex_vals_wf : pos.wf ex.vals.
Proof.
  split.
  - unfold ex.vals.
    repeat (apply map_Forall_insert_2; [lia |]). apply map_Forall_empty.
  - vm_compute. reflexivity.
Qed.

(** ** The gas-power regulator *)

Section GasPower.
Import poset.

Lemma perHour_fits total stake stakes :
  is_uint64 total -> 0 < stake <= stakes -> is_uint64 (total * stake / stakes).
Proof.
  intros [H0 H1] [Hs Hle]. split.
  - apply Z.div_pos; nia.
  - apply Z.div_lt_upper_bound; nia.
Qed.

(** C4.  For a validator [v] with nonzero stake in a well-formed stake
    table, the regulator computes perHour = TotalPerH * stake / TotalStake,
    maxGasPower = perHour * MaxGasPowerPeriod / 1h and
    startup = max (perHour * StartupPeriod / 1h, MinStartupGasPower), all
    rounded down; perHour always fits in 64 bits, the other two are
    narrowed to 64 bits, which changes nothing when they fit. *)
Theorem calcValidatorGasPowerPerH_spec (p : Poset) (v : N) :
  let gas := GasPower (dag p) in
  let vv := Validators (epochState p) in
  let perHour := TotalPerH gas * pos.Get vv v / pos.TotalStake vv in
  let maxGasPower := perHour * MaxGasPowerPeriod gas / Hour in
  let startup := perHour * StartupPeriod gas / Hour in
  pos.wf vv ->
  is_uint64 (TotalPerH gas) ->
  is_uint64 (MaxGasPowerPeriod gas) ->
  is_uint64 (StartupPeriod gas) ->
  pos.Get vv v <> 0 ->
  calcValidatorGasPowerPerH p v =
    Some (perHour, wrap64 maxGasPower,
          Z.max (wrap64 startup) (MinStartupGasPower gas)) /\
  (maxGasPower < 2 ^ 64 -> startup < 2 ^ 64 ->
   calcValidatorGasPowerPerH p v =
     Some (perHour, maxGasPower, Z.max startup (MinStartupGasPower gas))).
Proof.
  intros gas vv perHour maxGasPower startup Hwf HT HM HS Hne.
  pose proof (Get_le_stake_sum vv v (proj1 Hwf)) as Hget.
  pose proof (TotalStake_wf vv Hwf) as Htot.
  assert (Hpos : 0 < pos.Get vv v <= pos.TotalStake vv) by (rewrite Htot; lia).
  assert (Hper : is_uint64 perHour) by (apply perHour_fits; assumption).
  assert (Hcalc : calcValidatorGasPowerPerH p v =
    Some (perHour, wrap64 maxGasPower,
          Z.max (wrap64 startup) (MinStartupGasPower gas))).
  { unfold calcValidatorGasPowerPerH.
    fold vv gas.
    destruct (pos.Get vv v =? 0) eqn:E; [apply Z.eqb_eq in E; contradiction |].
    unfold big.div, big.mul, big.Uint64.
    destruct (pos.TotalStake vv =? 0) eqn:E0; [apply Z.eqb_eq in E0; lia |].
    simpl. fold perHour.
    rewrite (wrap64_id (MaxGasPowerPeriod gas)) by assumption.
    rewrite (wrap64_id (StartupPeriod gas)) by assumption.
    rewrite (wrap64_id perHour) by assumption.
    fold maxGasPower startup.
    do 3 f_equal.
    destruct (wrap64 startup <? MinStartupGasPower gas) eqn:E1.
    - apply Z.ltb_lt in E1. lia.
    - apply Z.ltb_ge in E1. lia. }
  split; [exact Hcalc |].
  intros Hm Hs. rewrite Hcalc.
  assert (0 <= maxGasPower).
  { apply Z.div_pos; [| unfold Hour; lia]. destruct Hper, HM. nia. }
  assert (0 <= startup).
  { apply Z.div_pos; [| unfold Hour; lia]. destruct Hper, HS. nia. }
  rewrite !wrap64_id by (split; assumption). reflexivity.
Qed.

(** The scenario of section 8: perHour = 90000, max = 250, startup = 125. *)
Lemma calcValidatorGasPowerPerH_witness :
  pos.Get ex.vals 1%N = 250 /\ pos.TotalStake ex.vals = 1000 /\
  calcValidatorGasPowerPerH ex.p0 1%N = Some (90000, 250, 125).
Proof.
  split; [reflexivity | split; [reflexivity |]].
  destruct (calcValidatorGasPowerPerH_spec ex.p0 1%N) as [_ H].
  - exact ex_vals_wf.
  - vm_compute. split; [discriminate | reflexivity].
  - vm_compute. split; [discriminate | reflexivity].
  - vm_compute. split; [discriminate | reflexivity].
  - vm_compute. discriminate.
  - rewrite H; [reflexivity | reflexivity | reflexivity].
Defined.

(** What [CalcGasPower] computes: the prior gas power left, plus the
    allocation for one nanosecond, capped at the maximum. *)
Lemma CalcGasPower_unfold p e perHour maxGasPower startup prior :
  calcValidatorGasPowerPerH p (inter.Creator e) = Some (perHour, maxGasPower, startup) ->
  spec.priorLeft p e startup = Some prior ->
  CalcGasPower p e = Some (Z.min (wrap64 (wrap64 (perHour / Hour) + prior)) maxGasPower).
Proof.
  intros Hc Hp. unfold CalcGasPower. rewrite Hc.
  unfold spec.priorLeft in Hp.
  assert (Hfin : forall prev, prev = prior ->
    (gasPowerAllocated_bn ← big.div (big.mul 1 perHour) Hour;
     let gasPower := wrap64 (big.Uint64 gasPowerAllocated_bn + prev) in
     let gasPower := if maxGasPower <? gasPower then maxGasPower else gasPower in
     Some gasPower) =
    Some (Z.min (wrap64 (wrap64 (perHour / Hour) + prior)) maxGasPower)).
  { intros prev ->. unfold big.div, big.mul, big.Uint64.
    change (Hour =? 0) with false. cbn [mbind option_bind].
    rewrite Z.mul_1_l. f_equal.
    destruct (maxGasPower <? _) eqn:E;
      [apply Z.ltb_lt in E | apply Z.ltb_ge in E]; lia. }
  cbn [mbind option_bind].
  destruct (inter.SelfParent e) as [sp |].
  - destruct (GetEventHeader p (inter.Epoch e) sp) as [h |];
      [| discriminate Hp].
    cbn [mbind option_bind]. apply Hfin. simpl in Hp. congruence.
  - destruct (GenesisState.LastHeaders (PrevEpoch (epochState p))
                !! inter.Creator e) as [h |].
    + cbn [mbind option_bind]. apply Hfin. injection Hp as <-.
      destruct (inter.GasPowerLeft h <? startup) eqn:E;
        [apply Z.ltb_lt in E | apply Z.ltb_ge in E]; lia.
    + cbn [mbind option_bind]. apply Hfin. congruence.
Qed.

(** C9.  For an event whose creator has zero stake in the current
    validator table, [CalcGasPower] returns 0, whatever the gas power left
    of the self-parent or of the previous epoch's last header (the
    self-parent, if any, being in the event source). *)
Theorem CalcGasPower_zero_stake (p : Poset) (e : inter.EventHeaderData) :
  pos.Get (Validators (epochState p)) (inter.Creator e) = 0 ->
  (forall sp, inter.SelfParent e = Some sp ->
              is_Some (GetEventHeader p (inter.Epoch e) sp)) ->
  CalcGasPower p e = Some 0.
Proof.
  intros Hz Hsp.
  assert (Hc : calcValidatorGasPowerPerH p (inter.Creator e) = Some (0, 0, 0)).
  { unfold calcValidatorGasPowerPerH. rewrite Hz. reflexivity. }
  assert (Hp : exists prior, spec.priorLeft p e 0 = Some prior).
  { unfold spec.priorLeft. destruct (inter.SelfParent e) as [sp |]; [| eauto].
    destruct (Hsp sp eq_refl) as [h ->]. simpl. eauto. }
  destruct Hp as [prior Hp].
  rewrite (CalcGasPower_unfold p e 0 0 0 prior Hc Hp). f_equal.
  pose proof (wrap64_range (wrap64 (0 / Hour) + prior)) as [H0 _]. lia.
Qed.

(** Address 3 has no stake; its event 102 has the self-parent 100, with
    100 gas power left. *)
Lemma CalcGasPower_zero_stake_witness :
  pos.Get ex.vals 3%N = 0 /\
  GetEventHeader ex.p1 1 100%N = Some ex.h100 /\
  inter.GasPowerLeft ex.h100 = 100 /\
  CalcGasPower ex.p1 ex.h102 = Some 0.
Proof.
  split; [reflexivity | split; [reflexivity | split; [reflexivity |]]].
  apply (CalcGasPower_zero_stake ex.p1 ex.h102).
  - reflexivity.
  - intros sp Hsp. injection Hsp as <-. exists ex.h100. reflexivity.
Defined.

(** C3, at an event two seconds after its self-parent.  The validator has
    perHour = 90000 and max = 250, the self-parent has 100 gas power left:
    the specification's formula gives min (100 + 90000 * 2s / 1h, 250) = 150,
    [CalcGasPower] returns 100: it allocates for one nanosecond, whatever
    the time elapsed. *)
Theorem CalcGasPower_ignores_elapsed_time :
  calcValidatorGasPowerPerH ex.p1 1%N = Some (90000, 250, 125) /\
  inter.SelfParent ex.h101 = Some 100%N /\
  GetEventHeader ex.p1 1 100%N = Some ex.h100 /\
  inter.ClaimedTime ex.h101 - inter.ClaimedTime ex.h100 = 2 * ex.second /\
  spec.GasPowerAvailable (inter.GasPowerLeft ex.h100) 90000 250 (2 * ex.second) = 150 /\
  CalcGasPower ex.p1 ex.h101 = Some 100.
Proof. repeat split; vm_compute; reflexivity. Qed.

(** The claimed time of the event does not enter the result. *)
Lemma CalcGasPower_ClaimedTime_irrelevant p e t :
  CalcGasPower p
    {| inter.Hash := inter.Hash e; inter.Epoch := inter.Epoch e;
       inter.Seq := inter.Seq e; inter.Frame := inter.Frame e;
       inter.Creator := inter.Creator e; inter.Lamport := inter.Lamport e;
       inter.Parents := inter.Parents e;
       inter.GasPowerUsed := inter.GasPowerUsed e;
       inter.GasPowerLeft := inter.GasPowerLeft e;
       inter.ClaimedTime := t |} = CalcGasPower p e.
Proof. reflexivity. Qed.

End GasPower.

(** ** Frame decision *)

Section FrameDecision.
Import poset.

(** The callback on an event that is confirmed already: no write, and the
    walk does not go deeper. *)
Lemma confirmWalk_confirmed frame header p :
  GetEventConfirmedOn (store p) (inter.Hash header) <> 0 ->
  confirmWalk frame header p = (p, Done false).
Proof.
  intros Hc. unfold confirmWalk, mbind, M_bind, bind, gets.
  destruct (GetEventConfirmedOn (store p) (inter.Hash header) =? 0) eqn:E.
  - apply Z.eqb_eq in E. contradiction.
  - reflexivity.
Qed.

(** The callback on an event that is not confirmed yet: the event is
    stamped, and the process exits. *)
Lemma confirmWalk_unconfirmed frame header p :
  GetEventConfirmedOn (store p) (inter.Hash header) = 0 ->
  confirmWalk frame header p =
    (with_store (fun s => SetEventConfirmedOn s (inter.Hash header) frame) p,
     Crit "confirmBlockEvents NOT_IMPLEMENTED yet").
Proof.
  intros Hc. unfold confirmWalk, mbind, M_bind, bind, gets.
  rewrite Hc. reflexivity.
Qed.

(** C1.  What the code does on an atropos whose [ConfirmedOn] record is
    unset: it stamps the atropos with the frame and exits through
    [Log.Crit]; it returns no event list.  (The claim: it returns the newly
    stamped events.) *)
Theorem confirmBlockEvents_aborts_on_unconfirmed
    (fuel : nat) (frame : Z) (atropos : N) (p : Poset)
    (header : inter.EventHeaderData) :
  (0 < fuel)%nat ->
  GetEventHeader p (EpochN (epochState p)) atropos = Some header ->
  GetEventConfirmedOn (store p) (inter.Hash header) = 0 ->
  confirmBlockEvents fuel frame atropos p =
    (with_store (fun s => SetEventConfirmedOn s (inter.Hash header) frame) p,
     Crit "confirmBlockEvents NOT_IMPLEMENTED yet").
Proof.
  intros Hfuel Hget Hunset.
  destruct fuel as [| fuel]; [lia |].
  unfold confirmBlockEvents, dfsSubgraph. cbn [dfsLoop].
  unfold mbind, M_bind, bind, gets. rewrite Hget.
  rewrite (confirmWalk_unconfirmed frame header p Hunset). reflexivity.
Qed.

(** The engine with the single event 100, unconfirmed, decided at frame 1. *)
Lemma confirmBlockEvents_witness :
  GetEventConfirmedOn (store ex.p1) 100%N = 0 /\
  confirmBlockEvents 5 1 100%N ex.p1 =
    (with_store (fun s => SetEventConfirmedOn s 100%N 1) ex.p1,
     Crit "confirmBlockEvents NOT_IMPLEMENTED yet").
Proof.
  split; [reflexivity |].
  apply (confirmBlockEvents_aborts_on_unconfirmed 5 1 100%N ex.p1 ex.h100).
  - lia.
  - reflexivity.
  - reflexivity.
Defined.

(** Whenever [confirmBlockEvents] returns, it returns no event and has
    stamped none. *)
Lemma confirmBlockEvents_returns_nothing fuel frame atropos p p' events lastHeaders :
  confirmBlockEvents fuel frame atropos p = (p', Done (events, lastHeaders)) ->
  events = [] /\ lastHeaders = ∅ /\ p' = p.
Proof.
  destruct fuel as [| fuel]; [discriminate |].
  unfold confirmBlockEvents, dfsSubgraph. cbn [dfsLoop].
  unfold mbind, M_bind, bind, gets.
  destruct (GetEventHeader p (EpochN (epochState p)) atropos) as [header |];
    [| discriminate].
  destruct (decide (GetEventConfirmedOn (store p) (inter.Hash header) = 0))
    as [Hunset | Hset].
  - rewrite (confirmWalk_unconfirmed frame header p Hunset). discriminate.
  - rewrite (confirmWalk_confirmed frame header p Hset).
    cbn. intros H. injection H as <- <- <-. auto.
Qed.

Variable Top : gmap N Z -> gmap N Z.
Variable fareOrdering :
  Z -> N -> list inter.EventHeaderData -> M (list N * FrameInfo).

(** C8.  If the confirmed block events computed for the decided frame are
    empty, [onFrameDecided] exits through [Log.Crit] with the consistency
    error; no block is handed to [applyBlock] and the block number is not
    advanced. *)
Theorem onFrameDecided_no_events (fuel : nat) (frame : Z) (atropos : N)
    (p p1 : Poset) (lastHeaders : gmap N inter.EventHeaderData) :
  confirmBlockEvents fuel frame atropos
    (with_checkpoint (fun c =>
       {| LastDecidedFrame := frame; LastBlockN := LastBlockN c;
          LastAtropos := LastAtropos c; StateHash := StateHash c;
          NextValidators := NextValidators c |})
       (with_election (fun el =>
          election.Reset el (Validators (epochState p)) (wrap32 (frame + 1))) p))
    = (p1, Done ([], lastHeaders)) ->
  onFrameDecided Top fareOrdering fuel frame atropos p =
    (p1, Crit "Frame is decided with no events. It isn't possible.") /\
  applied p1 = applied p /\
  LastBlockN (checkpoint p1) = LastBlockN (checkpoint p).
Proof.
  intros Hconfirm.
  split.
  - unfold onFrameDecided, mbind, M_bind, bind, modify.
    rewrite Hconfirm. reflexivity.
  - apply confirmBlockEvents_returns_nothing in Hconfirm as (_ & _ & ->).
    split; reflexivity.
Qed.

Lemma confirmBlockEvents_applied fuel frame atropos p :
  applied (fst (confirmBlockEvents fuel frame atropos p)) = applied p.
Proof.
  destruct fuel as [| fuel]; [reflexivity |].
  unfold confirmBlockEvents, dfsSubgraph. cbn [dfsLoop].
  unfold mbind, M_bind, bind, gets.
  destruct (GetEventHeader p (EpochN (epochState p)) atropos) as [header |];
    [| reflexivity].
  destruct (decide (GetEventConfirmedOn (store p) (inter.Hash header) = 0))
    as [Hunset | Hset].
  - rewrite (confirmWalk_unconfirmed frame header p Hunset). reflexivity.
  - rewrite (confirmWalk_confirmed frame header p Hset). reflexivity.
Qed.

(** X25.  In this code [onFrameDecided] never hands a block to [applyBlock]
    and never returns: the walk either aborts or confirms nothing. *)
Lemma onFrameDecided_never_emits fuel frame atropos p :
  applied (fst (onFrameDecided Top fareOrdering fuel frame atropos p))
    = applied p /\
  forall lastHeaders,
    snd (onFrameDecided Top fareOrdering fuel frame atropos p)
      <> Done lastHeaders.
Proof.
  unfold onFrameDecided, mbind, M_bind, bind, modify.
  match goal with
  | |- context [confirmBlockEvents fuel frame atropos ?q] => set (pd := q)
  end.
  pose proof (confirmBlockEvents_applied fuel frame atropos pd) as Happ.
  destruct (confirmBlockEvents fuel frame atropos pd) as [p1 [[evs lh] | msg | msg |]] eqn:E;
    simpl in Happ; try (split; [exact Happ | discriminate]).
  apply confirmBlockEvents_returns_nothing in E as (-> & _ & _).
  cbn. split; [exact Happ | discriminate].
Qed.

End FrameDecision.

Section FrameDecisionExample.
Import poset.

(** Event 100 is confirmed on frame 1 already; frame 2 is decided with 100
    as atropos. *)
Lemma onFrameDecided_no_events_witness :
  GetEventConfirmedOn (store ex.p1confirmed) 100%N = 1 /\
  snd (onFrameDecided ex.Top ex.fareOrdering 5 2 100%N ex.p1confirmed) =
    Crit "Frame is decided with no events. It isn't possible." /\
  applied (fst (onFrameDecided ex.Top ex.fareOrdering 5 2 100%N ex.p1confirmed)) = [].
Proof.
  split; [reflexivity |].
  destruct (onFrameDecided_no_events ex.Top ex.fareOrdering 5 2 100%N ex.p1confirmed
              (with_checkpoint (fun c =>
       {| LastDecidedFrame := 2; LastBlockN := LastBlockN c;
          LastAtropos := LastAtropos c; StateHash := StateHash c;
          NextValidators := NextValidators c |})
       (with_election (fun el =>
          election.Reset el (Validators (epochState ex.p1confirmed)) (wrap32 (2 + 1))) ex.p1confirmed)) ∅) as (Hrun & Happ & _).
  - reflexivity.
  - rewrite Hrun. split; [reflexivity | exact Happ].
Defined.

End FrameDecisionExample.

(** ** Epoch sealing *)

Section Sealing.
Import poset.

Variable Top : gmap N Z -> gmap N Z.
Variable frameConsensusTime : Poset -> Z -> Z.

(** C2.  [tryToSealEpoch] seals the epoch iff
    [LastDecidedFrame >= EpochLen]; otherwise the state is unchanged.
    Sealing snapshots [PrevEpoch] (time, epoch number, last atropos, state
    hash, last headers), installs [NextValidators.Top()] as the validators,
    increments [EpochN] by one (a [uint32]), resets [LastDecidedFrame] to 0,
    persists epoch state and checkpoint, recreates the epoch database with
    empty tables, and resets the vector clock and the election, the latter
    to the first frame. *)
Theorem tryToSealEpoch_spec (atropos : N)
    (lastHeaders : gmap N inter.EventHeaderData) (p : Poset) :
  let sealed := bool_decide (EpochLen (dag p) <= LastDecidedFrame (checkpoint p)) in
  exists p',
    tryToSealEpoch Top frameConsensusTime atropos lastHeaders p = (p', Done sealed) /\
    if sealed then
      PrevEpoch (epochState p') =
        {| GenesisState.Epoch := EpochN (epochState p);
           GenesisState.Time :=
             frameConsensusTime p (LastDecidedFrame (checkpoint p));
           GenesisState.LastAtropos := atropos;
           GenesisState.StateHash := StateHash (checkpoint p);
           GenesisState.LastHeaders := lastHeaders |} /\
      Validators (epochState p') = Top (NextValidators (checkpoint p)) /\
      EpochN (epochState p') = wrap32 (EpochN (epochState p) + 1) /\
      LastDecidedFrame (checkpoint p') = 0 /\
      NextValidators (checkpoint p') = Validators (epochState p') /\
      epochDb (store p') = EpochN (epochState p') /\
      epochTable (store p') = emptyEpochTable /\
      tableEpoch (store p') = Some (epochState p') /\
      tableCheckpoint (store p') = Some (checkpoint p') /\
      vecClock p' =
        {| vector.validators := Validators (epochState p');
           vector.cache := ∅ |} /\
      election p' =
        {| election.frameToDecide := firstFrame;
           election.validators := Validators (epochState p');
           election.decidedRoots := ∅; election.votes := ∅ |}
    else p' = p.
Proof.
  intros sealed. subst sealed.
  unfold tryToSealEpoch, mbind, M_bind, bind, gets, isEpochSealed.
  destruct (EpochLen (dag p) <=? LastDecidedFrame (checkpoint p)) eqn:E.
  - apply Z.leb_le in E. rewrite bool_decide_true by exact E.
    eexists. split; [reflexivity |]. cbn. repeat split.
  - apply Z.leb_gt in E. rewrite bool_decide_false by lia.
    eexists. split; reflexivity.
Qed.

End Sealing.

(** Epoch 1 with its 10 frames decided is sealed: epoch 2 begins. *)
Example tryToSealEpoch_example :
  let r := poset.tryToSealEpoch ex.Top ex.frameConsensusTime 100%N ∅
             (ex.engine ∅ {[ 100%N := 10 ]} 10) in
  snd r = Done true /\
  poset.EpochN (poset.epochState (fst r)) = 2 /\
  poset.LastDecidedFrame (poset.checkpoint (fst r)) = 0 /\
  poset.epochTable (poset.store (fst r)) = poset.emptyEpochTable.
Proof. repeat split. Qed.

(** ** Event processing *)

Section ProcessEvent.
Import gossip.
Context {Ext : Type} {collaborators : Collaborators Ext}.

Lemma HasEvent_DeleteEvent (st : Store) (epoch : Z) (id : N) :
  HasEvent (DeleteEvent epoch id st) id = false.
Proof.
  unfold HasEvent, DeleteEvent. cbn. apply bool_decide_eq_false.
  rewrite lookup_delete_eq. intros [x Hx]. discriminate.
Qed.

Lemma HasEvent_SetEvent (st : Store) (e : inter.Event) :
  HasEvent (SetEvent e st) (inter.Hash e) = true.
Proof.
  unfold HasEvent, SetEvent. cbn. apply bool_decide_eq_true.
  rewrite lookup_insert_eq. eauto.
Qed.

(** C6.  For an event that the store has already, [processEvent] returns
    [ErrAlreadyConnectedEvent] and the state of the service, the store
    included, is the one it was called with: the duplicate is detected
    before any write. *)
Theorem processEvent_already_connected (realEngine : option (Consensus Ext))
    (e : inter.Event) (s : Service Ext) :
  HasEvent (store s) (inter.Hash e) = true ->
  processEvent realEngine e s = (s, Some ErrAlreadyConnectedEvent).
Proof. intros Hhas. unfold processEvent. rewrite Hhas. reflexivity. Qed.

(** C7.  If the engine's [ProcessEvent] returns an error after the event
    record was stored, [processEvent] deletes the record and returns that
    error: the store has neither the event nor its header afterwards. *)
Theorem processEvent_engine_error (engine : Consensus Ext)
    (e : inter.Event) (s s1 : Service Ext) (err : error) :
  HasEvent (store s) (inter.Hash e) = false ->
  ProcessEvent engine e (with_store (SetEvent e) s) = (s1, Some err) ->
  processEvent (Some engine) e s =
    (with_store (DeleteEvent (inter.Epoch e) (inter.Hash e)) s1, Some err) /\
  HasEvent (store (fst (processEvent (Some engine) e s))) (inter.Hash e) = false /\
  EventHeaders (store (fst (processEvent (Some engine) e s)))
    !! (inter.Epoch e, inter.Hash e) = None.
Proof.
  intros Hnew Herr.
  assert (Hrun : processEvent (Some engine) e s =
    (with_store (DeleteEvent (inter.Epoch e) (inter.Hash e)) s1, Some err)).
  { unfold processEvent. rewrite Hnew, Herr. reflexivity. }
  rewrite Hrun. split; [reflexivity |]. split.
  - apply HasEvent_DeleteEvent.
  - cbn. apply lookup_delete_eq.
Qed.

End ProcessEvent.

(** Event 7 is in the store: the second call changes nothing. *)
Lemma processEvent_already_connected_witness :
  gossip.HasEvent (gossip.store (ex.service [ex.mkEvent 7 1] 10)) 7%N = true /\
  gossip.processEvent (collaborators := ex.idle) (Some ex.rejecting) (ex.mkEvent 7 1)
      (ex.service [ex.mkEvent 7 1] 10)
    = (ex.service [ex.mkEvent 7 1] 10, Some gossip.ErrAlreadyConnectedEvent).
Proof.
  split; [reflexivity |].
  apply (processEvent_already_connected (collaborators := ex.idle)).
  reflexivity.
Defined.

(** Event 7 is new and the engine rejects it: the store is empty again. *)
Lemma processEvent_engine_error_witness :
  gossip.HasEvent (gossip.store (ex.service [] 10)) 7%N = false /\
  gossip.processEvent (collaborators := ex.idle) (Some ex.rejecting) (ex.mkEvent 7 1)
      (ex.service [] 10)
    = (ex.service [] 10, Some (gossip.ErrOther "wrong event epoch hash")).
Proof.
  split; [reflexivity |].
  destruct (processEvent_engine_error (collaborators := ex.idle) ex.rejecting
              (ex.mkEvent 7 1) (ex.service [] 10)
              (gossip.with_store (gossip.SetEvent (ex.mkEvent 7 1)) (ex.service [] 10))
              (gossip.ErrOther "wrong event epoch hash")) as (Hrun & _ & _).
  - reflexivity.
  - reflexivity.
  - rewrite Hrun. reflexivity.
Defined.

(** ** Spilling of block events *)

Section Spill.
Import gossip.
Context {Ext : Type}.
Variable s : Service Ext.
Variable block : inter.Block.

Local Abbreviation st := (store s).
Local Abbreviation limit := (BlockGasHardLimit (config s)).
Local Abbreviation events := (inter.Events block).
Local Abbreviation stored := (fun id : N => is_Some (GetEvent (store s) id)).

Lemma setEvents_id : setEvents block events = block.
Proof. destruct block. reflexivity. Qed.

(** One turn of the loop. *)
Lemma spillLoop_eq i gasPowerUsedSum fullEvents :
  spillLoop s block i gasPowerUsedSum fullEvents =
  match events !! i with
  | None => Panic "index out of range"
  | Some id =>
      match GetEvent st id with
      | None => Crit "Event not found"
      | Some e =>
          let fullEvents := <[i := Some e]> fullEvents in
          let gasPowerUsedSum := wrap64 (gasPowerUsedSum + inter.GasPowerUsed e) in
          if limit <? gasPowerUsedSum then
            Done (setEvents block (drop (S i) events), drop (S i) fullEvents)
          else
            match i with
            | O => Done (block, fullEvents)
            | S i' => spillLoop s block i' gasPowerUsedSum fullEvents
            end
      end
  end.
Proof. destruct i; reflexivity. Qed.

(** Filling slot [i] extends the filled part of [fullEvents] by one. *)
Lemma fill_step fullEvents i id e :
  events !! i = Some id ->
  GetEvent st id = Some e ->
  length fullEvents = length events ->
  drop (S i) fullEvents = map (GetEvent st) (drop (S i) events) ->
  drop i (<[i := Some e]> fullEvents) = map (GetEvent st) (drop i events).
Proof.
  intros Hid He Hlen Hfilled.
  assert (Hi : (i < length fullEvents)%nat).
  { rewrite Hlen. eapply lookup_lt_Some. exact Hid. }
  rewrite (drop_S _ (Some e) i) by (apply list_lookup_insert_eq; exact Hi).
  rewrite drop_insert_lt by lia.
  rewrite (drop_S events id i) by exact Hid.
  cbn [map]. rewrite He, Hfilled. reflexivity.
Qed.

Lemma gasSum_drop_S i id :
  events !! i = Some id ->
  gasSum st (drop i events) = gasSum st (drop (S i) events) + gasOf st id.
Proof. intros Hid. rewrite (drop_S events id i) by exact Hid. reflexivity. Qed.

Lemma gasSum_nonneg (ids : list N) :
  Forall (fun id => 0 <= gasOf st id) ids -> 0 <= gasSum st ids.
Proof.
  induction 1 as [| id ids Hid _ IH]; [cbn; lia |].
  change (gasSum st (id :: ids)) with (gasSum st ids + gasOf st id). lia.
Qed.

Lemma gasSum_drop_le (ids : list N) (n : nat) :
  Forall (fun id => 0 <= gasOf st id) ids ->
  gasSum st (drop n ids) <= gasSum st ids.
Proof.
  intros Hall. revert n.
  induction Hall as [| id ids Hid Hall IH]; intros [| n]; cbn [drop]; try lia.
  change (gasSum st (id :: ids)) with (gasSum st ids + gasOf st id).
  specialize (IH n). lia.
Qed.

(** The loop returns a suffix of the event list, with its events. *)
Lemma spillLoop_suffix i gasPowerUsedSum fullEvents :
  Forall stored events ->
  (i < length events)%nat ->
  length fullEvents = length events ->
  drop (S i) fullEvents = map (GetEvent st) (drop (S i) events) ->
  exists k, (k <= S i)%nat /\
    spillLoop s block i gasPowerUsedSum fullEvents =
      Done (setEvents block (drop k events), map (GetEvent st) (drop k events)).
Proof.
  intros Hstored. revert gasPowerUsedSum fullEvents.
  induction i as [| i IH]; intros acc full Hi Hlen Hfilled.
  all: destruct (lookup_lt_is_Some_2 events _ Hi) as [id Hid].
  all: destruct (proj1 (Forall_lookup _ _) Hstored _ _ Hid) as [e He].
  all: pose proof (fill_step full _ id e Hid He Hlen Hfilled) as Hfill.
  all: rewrite spillLoop_eq, Hid, He; cbn zeta.
  all: destruct (limit <? _).
  - exists 1%nat. split; [lia |]. rewrite drop_insert_lt by lia.
    rewrite Hfilled. reflexivity.
  - exists 0%nat. split; [lia |]. rewrite !drop_0 in *.
    rewrite setEvents_id, Hfill. reflexivity.
  - exists (S (S i)). split; [lia |]. rewrite drop_insert_lt by lia.
    rewrite Hfilled. reflexivity.
  - destruct (IH (wrap64 (acc + inter.GasPowerUsed e)) (<[S i := Some e]> full))
      as (k & Hk & Hrun).
    + lia.
    + rewrite length_insert. exact Hlen.
    + exact Hfill.
    + exists k. split; [lia | exact Hrun].
Qed.

Lemma sum_step i id e acc :
  events !! i = Some id ->
  GetEvent st id = Some e ->
  Forall (fun id => 0 <= gasOf st id) events ->
  gasSum st events < 2 ^ 64 ->
  acc = gasSum st (drop (S i) events) ->
  wrap64 (acc + inter.GasPowerUsed e) = gasSum st (drop i events).
Proof.
  intros Hid He Hnonneg Htotal ->.
  assert (Hgas : gasOf st id = inter.GasPowerUsed e)
    by (unfold gasOf; rewrite He; reflexivity).
  rewrite <- Hgas, <- (gasSum_drop_S i id Hid).
  apply wrap64_id. split.
  - apply gasSum_nonneg, Forall_drop, Hnonneg.
  - eapply Z.le_lt_trans; [apply gasSum_drop_le, Hnonneg | exact Htotal].
Qed.

(** Without overflow of the sum, the suffix is the longest one that fits. *)
Lemma spillLoop_longest i gasPowerUsedSum fullEvents :
  Forall stored events ->
  Forall (fun id => 0 <= gasOf st id) events ->
  gasSum st events < 2 ^ 64 ->
  (i < length events)%nat ->
  length fullEvents = length events ->
  drop (S i) fullEvents = map (GetEvent st) (drop (S i) events) ->
  gasPowerUsedSum = gasSum st (drop (S i) events) ->
  gasPowerUsedSum <= limit ->
  exists k, (k <= S i)%nat /\
    spillLoop s block i gasPowerUsedSum fullEvents =
      Done (setEvents block (drop k events), map (GetEvent st) (drop k events)) /\
    gasSum st (drop k events) <= limit /\
    (k = 0%nat \/ limit < gasSum st (drop (k - 1) events)).
Proof.
  intros Hstored Hnonneg Htotal. revert gasPowerUsedSum fullEvents.
  induction i as [| i IH]; intros acc full Hi Hlen Hfilled Hacc Hfits.
  all: destruct (lookup_lt_is_Some_2 events _ Hi) as [id Hid].
  all: destruct (proj1 (Forall_lookup _ _) Hstored _ _ Hid) as [e He].
  all: pose proof (fill_step full _ id e Hid He Hlen Hfilled) as Hfill.
  all: pose proof (sum_step _ id e acc Hid He Hnonneg Htotal Hacc) as Hwrap.
  all: rewrite spillLoop_eq, Hid, He; cbn zeta; rewrite Hwrap.
  all: destruct (limit <? _) eqn:E; [apply Z.ltb_lt in E | apply Z.ltb_ge in E].
  - exists 1%nat. split; [lia |]. rewrite drop_insert_lt by lia.
    rewrite Hfilled. split; [reflexivity |]. split; [lia |].
    right. exact E.
  - exists 0%nat. split; [lia |]. rewrite !drop_0 in *.
    rewrite setEvents_id, Hfill. split; [reflexivity |]. split; [lia | left; reflexivity].
  - exists (S (S i)). split; [lia |]. rewrite drop_insert_lt by lia.
    rewrite Hfilled. split; [reflexivity |]. split; [lia |].
    right. replace (S (S i) - 1)%nat with (S i) by lia. exact E.
  - destruct (IH (gasSum st (drop (S i) events)) (<[S i := Some e]> full))
      as (k & Hk & Hrun & Hfit & Hlong).
    + lia.
    + rewrite length_insert. exact Hlen.
    + exact Hfill.
    + reflexivity.
    + exact E.
    + exists k. split; [lia |]. split; [exact Hrun |]. split; assumption.
Qed.

Lemma replicate_filled :
  drop (S (length events - 1)) (replicate (length events) (@None inter.Event)) =
  map (GetEvent st) (drop (S (length events - 1)) events).
Proof.
  destruct events as [| id ids] eqn:E; [reflexivity |].
  cbn [length]. replace (S (S (length ids) - 1)) with (S (length ids)) by lia.
  rewrite !drop_ge; [reflexivity | cbn; lia | rewrite length_replicate; lia].
Qed.

(** C5, amended.  For a block whose events' summed [GasPowerUsed] exceeds
    [BlockGasHardLimit] (the events being in the store, the sum fitting in
    64 bits), [spillBlockEvents] removes the first [k > 0] events, from the
    head of the order, and retains the events at the tail: the longest
    suffix whose summed [GasPowerUsed] fits. *)
Theorem spillBlockEvents_drops_head :
  Forall stored events ->
  Forall (fun id => 0 <= gasOf st id) events ->
  gasSum st events < 2 ^ 64 ->
  0 <= limit ->
  limit < gasSum st events ->
  exists k, (0 < k <= length events)%nat /\
    spillBlockEvents s block =
      Done (setEvents block (drop k events), map (GetEvent st) (drop k events)) /\
    gasSum st (drop k events) <= limit /\
    limit < gasSum st (drop (k - 1) events).
Proof.
  intros Hstored Hnonneg Htotal Hlimit Hexceeds.
  assert (Hlen : (0 < length events)%nat).
  { destruct events; [cbn in Hexceeds; lia | cbn; lia]. }
  unfold spillBlockEvents.
  destruct (Nat.eqb_spec (length events) 0) as [Hz | _]; [lia |].
  destruct (spillLoop_longest (length events - 1) 0
              (replicate (length events) None))
    as (k & Hk & Hrun & Hfit & Hlong); try assumption.
  - lia.
  - apply length_replicate.
  - apply replicate_filled.
  - rewrite drop_ge by lia. reflexivity.
  - destruct Hlong as [-> | Hlong].
    + rewrite drop_0 in Hfit. lia.
    + exists k. split; [| split; [exact Hrun | split; assumption]].
      split; [| lia].
      destruct k; [rewrite drop_0 in Hfit; lia | lia].
Qed.

(** C10, amended.  For a block with a non-empty event list,
    [spillBlockEvents] returns a contiguous suffix of the original order;
    the suffix is empty when the [GasPowerUsed] of the block's final event
    alone exceeds [BlockGasHardLimit], and otherwise it is non-empty and
    ends with the final event. *)
Theorem spillBlockEvents_suffix (final : N) :
  last events = Some final ->
  Forall stored events ->
  is_uint64 (gasOf st final) ->
  exists k, (k <= length events)%nat /\
    spillBlockEvents s block =
      Done (setEvents block (drop k events), map (GetEvent st) (drop k events)) /\
    if limit <? gasOf st final then k = length events
    else (k < length events)%nat /\ last (drop k events) = Some final.
Proof.
  intros Hlast Hstored Hgas.
  assert (Hlen : (0 < length events)%nat).
  { destruct events; [discriminate | cbn; lia]. }
  rewrite last_lookup in Hlast.
  replace (pred (length events)) with (length events - 1)%nat in Hlast by lia.
  destruct (proj1 (Forall_lookup _ _) Hstored _ _ Hlast) as [e He].
  assert (HgasOf : gasOf st final = inter.GasPowerUsed e)
    by (unfold gasOf; rewrite He; reflexivity).
  pose proof (fill_step (replicate (length events) None) _ final e Hlast He
                (length_replicate _ _) replicate_filled) as Hfill.
  unfold spillBlockEvents.
  destruct (Nat.eqb_spec (length events) 0) as [Hz | _]; [lia |].
  rewrite spillLoop_eq, Hlast, He. cbn zeta.
  rewrite Z.add_0_l, <- HgasOf, (wrap64_id _ Hgas).
  destruct (limit <? gasOf st final).
  - exists (length events). split; [lia |].
    replace (S (length events - 1)) with (length events) by lia.
    rewrite drop_insert_lt by lia.
    rewrite !drop_ge by (rewrite ?length_replicate; lia).
    split; reflexivity.
  - assert (Hsuffix : forall k, (k < length events)%nat ->
                                last (drop k events) = Some final).
    { intros k Hk. rewrite last_lookup, lookup_drop, length_drop.
      rewrite <- Hlast. f_equal. lia. }
    destruct (length events - 1)%nat as [| i] eqn:Ei.
    + exists 0%nat. split; [lia |]. rewrite !drop_0 in *.
      rewrite setEvents_id, Hfill. split; [reflexivity |].
      split; [lia | exact (Hsuffix 0%nat Hlen)].
    + destruct (spillLoop_suffix i (gasOf st final)
                  (<[S i := Some e]> (replicate (length events) None)))
        as (k & Hk & Hrun).
      * exact Hstored.
      * lia.
      * rewrite length_insert. apply length_replicate.
      * exact Hfill.
      * exists k. split; [lia |]. split; [exact Hrun |].
        split; [lia | apply Hsuffix; lia].
Qed.

End Spill.

(** C5 as stated fails: events 1, 2, 3 use 1 gas each and the limit is 2;
    the event at the head is removed and the two at the tail are retained,
    which is no prefix of the order. *)
Lemma spillBlockEvents_drops_head_counterexample :
  let s := ex.service [ex.mkEvent 1 1; ex.mkEvent 2 1; ex.mkEvent 3 1] 2 in
  let block := ex.block [1; 2; 3]%N in
  gossip.BlockGasHardLimit (gossip.config s) <
    gasSum (gossip.store s) (inter.Events block) /\
  gossip.spillBlockEvents s block =
    Done (ex.block [2; 3]%N, [Some (ex.mkEvent 2 1); Some (ex.mkEvent 3 1)]) /\
  forall n, [2; 3]%N <> take n (inter.Events block).
Proof.
  split; [vm_compute; reflexivity |].
  split; [vm_compute; reflexivity |].
  intros [| [| [| [| n]]]]; discriminate.
Qed.

(** C10 as stated fails: the only event of the block uses 5 gas and the
    limit is 2; the result is empty and does not contain the final event. *)
Lemma spillBlockEvents_suffix_counterexample :
  let s := ex.service [ex.mkEvent 1 5] 2 in
  let block := ex.block [1]%N in
  last (inter.Events block) = Some 1%N /\
  gossip.spillBlockEvents s block = Done (ex.block [], []).
Proof. split; vm_compute; reflexivity. Qed.

(** Events 1, 2, 3 with 1 gas each, limit 2. *)
Lemma spillBlockEvents_drops_head_witness :
  let s := ex.service [ex.mkEvent 1 1; ex.mkEvent 2 1; ex.mkEvent 3 1] 2 in
  let block := ex.block [1; 2; 3]%N in
  gasSum (gossip.store s) [1; 2; 3]%N = 3 /\
  exists k, (0 < k <= 3)%nat /\
    gossip.spillBlockEvents s block =
      Done (gossip.setEvents block (drop k [1; 2; 3]%N),
            map (gossip.GetEvent (gossip.store s)) (drop k [1; 2; 3]%N)) /\
    gasSum (gossip.store s) (drop k [1; 2; 3]%N) <= 2 /\
    2 < gasSum (gossip.store s) (drop (k - 1) [1; 2; 3]%N).
Proof.
  intros s block. split; [reflexivity |].
  apply (spillBlockEvents_drops_head s block).
  - repeat constructor; eexists; reflexivity.
  - repeat constructor; vm_compute; discriminate.
  - vm_compute. reflexivity.
  - vm_compute. discriminate.
  - vm_compute. reflexivity.
Defined.

(** The same block: its final event, 3, fits and is retained. *)
Lemma spillBlockEvents_suffix_witness :
  let s := ex.service [ex.mkEvent 1 1; ex.mkEvent 2 1; ex.mkEvent 3 1] 2 in
  let block := ex.block [1; 2; 3]%N in
  gasOf (gossip.store s) 3%N = 1 /\
  exists k, (k <= 3)%nat /\
    gossip.spillBlockEvents s block =
      Done (gossip.setEvents block (drop k [1; 2; 3]%N),
            map (gossip.GetEvent (gossip.store s)) (drop k [1; 2; 3]%N)) /\
    (k < 3)%nat /\ last (drop k [1; 2; 3]%N) = Some 3%N.
Proof.
  intros s block. split; [reflexivity |].
  apply (spillBlockEvents_suffix s block 3%N).
  - reflexivity.
  - repeat constructor; eexists; reflexivity.
  - vm_compute. split; [discriminate | reflexivity].
Defined.

(** * Further properties of the code *)

(** ** The in-memory database *)

Section MemDatabase.
Import kvdb.
Implicit Types (w : MemDatabase) (m : gmap (list ascii) (option (list ascii))).
Implicit Types (key pre : list ascii) (val : option (list ascii)).

Lemma fullKey_inj w key key' : fullKey w key = fullKey w key' -> key = key'.
Proof. unfold fullKey. apply app_inv_head. Qed.

(** X1.  On an open handle, [Get] after [Put] of the same key returns the
    value that was put, without error, and [Has] answers true; this
    includes a [nil] value, which [Get] then cannot tell from a missing
    key. *)
Theorem Put_Get w key val m :
  db w = true ->
  exists m',
    Put w key val m = Done (m', None) /\
    Get w key m' = (val, None) /\
    Has w key m' = (true, None).
Proof.
  intros Hopen. eexists. unfold Put, Get, Has. rewrite Hopen.
  split; [reflexivity |]. rewrite lookup_insert_eq. split; reflexivity.
Qed.

(** X2.  [Put] and [Delete] of a key leave every other key of the same
    handle as it was, for [Get] and for [Has]. *)
Theorem Put_Delete_other w key key' val m :
  key <> key' ->
  (forall m', Put w key val m = Done (m', None) ->
     Get w key' m' = Get w key' m /\ Has w key' m' = Has w key' m) /\
  Get w key' (fst (Delete w key m)) = Get w key' m /\
  Has w key' (fst (Delete w key m)) = Has w key' m.
Proof.
  intros Hne.
  assert (Hfull : fullKey w key <> fullKey w key').
  { intros H. apply Hne. eapply fullKey_inj. exact H. }
  unfold Put, Get, Has, Delete. destruct (db w); cbn.
  - split.
    + intros m' H. injection H as <-.
      rewrite lookup_insert_ne by exact Hfull. split; reflexivity.
    + rewrite lookup_delete_ne by exact Hfull. split; reflexivity.
  - split; [discriminate | split; reflexivity].
Qed.

(** X3.  After [Delete] of a key, [Get] returns [nil] without error and
    [Has] answers false, on an open and on a closed handle. *)
Theorem Delete_Get w key m :
  Get w key (fst (Delete w key m)) = (None, None) /\
  Has w key (fst (Delete w key m)) = (false, None).
Proof.
  unfold Get, Has, Delete. destruct (db w); cbn; [| split; reflexivity].
  rewrite lookup_delete_eq. split; reflexivity.
Qed.

(** X4.  Key collisions are possible: what is put under [key] in the table
    of prefix [pre ++ "::" ++ pre'] is read under [pre' ++ "::" ++ key] in
    the table of prefix [pre]. *)
Theorem NewTable_collision w pre pre' key val m m' :
  Put (NewTable w (pre ++ separator ++ pre')) key val m = Done (m', None) ->
  Get (NewTable w pre) (pre' ++ separator ++ key) m' = (val, None).
Proof.
  assert (Hkey : fullKey (NewTable w pre) (pre' ++ separator ++ key) =
                 fullKey (NewTable w (pre ++ separator ++ pre')) key).
  { unfold fullKey, NewTable, CopyBytes. cbn [prefix].
    rewrite <- !app_assoc. reflexivity. }
  unfold Put, Get. rewrite Hkey.
  change (db (NewTable w pre)) with (db w).
  change (db (NewTable w (pre ++ separator ++ pre'))) with (db w).
  destruct (db w); [| discriminate]. intros H. injection H as <-.
  rewrite lookup_insert_eq. reflexivity.
Qed.

(** X6.  A table of a table is the table of the joined prefix: the handle
    [NewTable (NewTable w pre) pre'] is [NewTable w (pre ++ "-" ++ pre')]. *)
Theorem NewTable_nested w pre pre' :
  NewTable (NewTable w pre) pre' = NewTable w (pre ++ "-"%char :: pre').
Proof.
  unfold NewTable, CopyBytes. cbn. f_equal.
  rewrite <- !app_assoc. reflexivity.
Qed.

Lemma fullKey_NewTable_ne_same_length w pre pre' key key' :
  length pre = length pre' -> pre <> pre' ->
  fullKey (NewTable w pre) key <> fullKey (NewTable w pre') key'.
Proof.
  intros Hlen Hne H. unfold fullKey, NewTable, CopyBytes in H. cbn in H.
  rewrite <- !app_assoc in H. apply app_inv_head in H.
  cbn in H. injection H as H.
  apply app_inj_1 in H as [H _]; [contradiction | exact Hlen].
Qed.

Lemma fullKey_NewTable_ne_parent w pre key key' :
  fullKey (NewTable w pre) key <> fullKey w key'.
Proof.
  intros H. unfold fullKey, NewTable, CopyBytes, separator in H. cbn in H.
  rewrite <- !app_assoc in H. apply app_inv_head in H.
  cbn in H. discriminate H.
Qed.

(** X5.  A [Put] into a table is seen neither through a table of another
    prefix of the same length nor through the parent handle. *)
Theorem NewTable_isolated w pre pre' key key' val m m' :
  length pre = length pre' -> pre <> pre' ->
  Put (NewTable w pre) key val m = Done (m', None) ->
  Get (NewTable w pre') key' m' = Get (NewTable w pre') key' m /\
  Get w key' m' = Get w key' m.
Proof.
  intros Hlen Hne. unfold Put, Get.
  change (db (NewTable w pre)) with (db w).
  change (db (NewTable w pre')) with (db w).
  destruct (db w); [| discriminate]. intros H. injection H as <-.
  rewrite !lookup_insert_ne; [split; reflexivity | |].
  - apply fullKey_NewTable_ne_parent.
  - apply fullKey_NewTable_ne_same_length; assumption.
Qed.

End MemDatabase.

Section ForEach.
Import kvdb.
Implicit Types (w : MemDatabase) (m : gmap (list ascii) (option (list ascii))).
Implicit Types (key pre : list ascii) (val : option (list ascii)).

Lemma drop_fullKey w key :
  drop (length (prefix w) + length separator) (fullKey w key) = key.
Proof.
  unfold fullKey, CopyBytes. apply drop_app_length'. rewrite length_app. reflexivity.
Qed.

Lemma forEachLoop_collect w pre entries acc :
  forEachLoop w pre collect entries acc =
  acc ++ ((fun kv => (drop (length (prefix w) + length separator) kv.1, kv.2))
            <$> filter (fun kv => pre `prefix_of` kv.1) entries).
Proof.
  revert acc. induction entries as [| [k0 val] entries IH]; intros acc.
  - cbn. rewrite app_nil_r. reflexivity.
  - cbn [forEachLoop]. unfold CopyBytes. rewrite filter_cons. cbn [fst].
    destruct (decide (pre `prefix_of` k0)) as [Hp | Hp].
    + rewrite bool_decide_true by exact Hp. cbn [collect].
      rewrite IH, fmap_cons, <- app_assoc. reflexivity.
    + rewrite bool_decide_false by exact Hp. apply IH.
Qed.

(** X7.  On an open handle, the pairs that [ForEach] hands to a callback
    that never stops are exactly the entries of the handle whose key starts
    with the prefix, each with its key relative to the handle. *)
Theorem ForEach_collect w pre m key val :
  db w = true ->
  (key, val) ∈ fst (ForEach w pre collect m []) <->
  pre `prefix_of` key /\ m !! fullKey w key = Some val.
Proof.
  intros Hopen. unfold ForEach. rewrite Hopen. cbn [fst].
  rewrite forEachLoop_collect, app_nil_l, list_elem_of_fmap.
  split.
  - intros ([k0 v0] & Heq & Hin). cbn [fst snd] in Heq.
    injection Heq as -> ->.
    apply list_elem_of_filter in Hin as [[rest Hrest] Hin]. cbn [fst] in Hrest.
    apply elem_of_map_to_list in Hin.
    assert (Hk0 : k0 = fullKey w (pre ++ rest)).
    { rewrite Hrest. unfold fullKey, CopyBytes. rewrite <- !app_assoc. reflexivity. }
    rewrite Hk0, drop_fullKey. split; [exists rest; reflexivity |].
    rewrite <- Hk0. exact Hin.
  - intros [[rest ->] Hlook]. exists (fullKey w (pre ++ rest), val).
    cbn [fst snd]. rewrite drop_fullKey. split; [reflexivity |].
    apply list_elem_of_filter. split.
    + cbn [fst]. exists rest. unfold fullKey, CopyBytes.
      rewrite <- !app_assoc. reflexivity.
    + apply elem_of_map_to_list. exact Hlook.
Qed.

End ForEach.

Section Batch.
Import kvdb.
Implicit Types (w : MemDatabase) (m : gmap (list ascii) (option (list ascii))).
Implicit Types (key pre : list ascii) (val : option (list ascii)).
Implicit Types (b : memBatch) (ws : list kv) (ops : list op).

Lemma writeLoop_app w ws ws' m :
  writeLoop w (ws ++ ws') m =
  match writeLoop w ws m with
  | Done m' => writeLoop w ws' m'
  | Crit msg => Crit msg
  | Panic msg => Panic msg
  | OutOfFuel => OutOfFuel
  end.
Proof.
  revert m. induction ws as [| e ws IH]; intros m; [reflexivity |].
  cbn [writeLoop app]. destruct (del e); [apply IH |].
  destruct (db w); [apply IH | reflexivity].
Qed.

Lemma batched_bdb ops b : bdb (batched b ops) = bdb b.
Proof.
  revert b. induction ops as [| [key val | key] ops IH]; intros b;
    [reflexivity | |]; unfold batched in *; cbn [fold_left]; rewrite IH;
    reflexivity.
Qed.

Lemma writeLoop_batched ops b m :
  writeLoop (bdb b) (writes (batched b ops)) m =
  match writeLoop (bdb b) (writes b) m with
  | Done m' => direct (bdb b) ops m'
  | Crit msg => Crit msg
  | Panic msg => Panic msg
  | OutOfFuel => OutOfFuel
  end.
Proof.
  revert b m. induction ops as [| [key val | key] ops IH]; intros b m.
  - cbn. destruct (writeLoop (bdb b) (writes b) m); reflexivity.
  - change (batched b (OpPut key val :: ops))
      with (batched (fst (BatchPut b key val)) ops).
    set (b' := fst (BatchPut b key val)).
    specialize (IH b' m). change (bdb b') with (bdb b) in IH. rewrite IH.
    change (writes b')
      with (writes b ++ [ {| k := CopyBytes (fullKey (bdb b) key);
                             v := CopyBytes val; del := false |} ]).
    rewrite writeLoop_app.
    destruct (writeLoop (bdb b) (writes b) m) as [m' | | |]; try reflexivity.
    cbn [writeLoop del k v direct]. unfold Put, CopyBytes.
    destruct (db (bdb b)); reflexivity.
  - change (batched b (OpDelete key :: ops))
      with (batched (fst (BatchDelete b key)) ops).
    set (b' := fst (BatchDelete b key)).
    specialize (IH b' m). change (bdb b') with (bdb b) in IH. rewrite IH.
    change (writes b')
      with (writes b ++ [ {| k := CopyBytes (fullKey (bdb b) key);
                             v := None; del := true |} ]).
    rewrite writeLoop_app.
    destruct (writeLoop (bdb b) (writes b) m) as [m' | | |]; reflexivity.
Qed.

(** X8.  Writing a batch does what the same operations do one by one on
    the database, panic on a closed handle included. *)
Theorem Write_batched w ops m :
  Write (batched (NewBatch w) ops) m =
  match direct w ops m with
  | Done m' => Done (m', None)
  | Crit msg => Crit msg
  | Panic msg => Panic msg
  | OutOfFuel => OutOfFuel
  end.
Proof.
  unfold Write. rewrite batched_bdb. cbn [NewBatch bdb].
  pose proof (writeLoop_batched ops (NewBatch w) m) as H.
  cbn [NewBatch bdb writes writeLoop] in H. rewrite H. reflexivity.
Qed.

(** One write, on a map that is there. *)
Local Abbreviation step := (fun m (e : kv) =>
  if del e then delete (k e) m else <[k e := v e]> m).

Lemma writeLoop_open w ws m :
  db w = true -> writeLoop w ws m = Done (fold_left step ws m).
Proof.
  intros Hopen. revert m. induction ws as [| e ws IH]; intros m; [reflexivity |].
  cbn [writeLoop fold_left]. rewrite Hopen. destruct (del e); apply IH.
Qed.

Lemma writeLoop_closed w ws m m' :
  db w = false -> writeLoop w ws m = Done m' -> m' = m.
Proof.
  intros Hclosed. revert m. induction ws as [| e ws IH]; intros m; cbn [writeLoop].
  - intros H. injection H as <-. reflexivity.
  - rewrite Hclosed. destruct (del e); [apply IH | discriminate].
Qed.

Lemma fold_step_agree ws key m1 m2 :
  (forall j, j <> key -> m1 !! j = m2 !! j) ->
  forall j, j <> key -> fold_left step ws m1 !! j = fold_left step ws m2 !! j.
Proof.
  revert m1 m2. induction ws as [| e ws IH]; intros m1 m2 Hagree; [exact Hagree |].
  cbn [fold_left]. apply IH. intros j Hj.
  destruct (del e).
  - destruct (decide (k e = j)) as [-> | Hne].
    + rewrite !lookup_delete_eq. reflexivity.
    + rewrite !lookup_delete_ne by exact Hne. apply Hagree, Hj.
  - destruct (decide (k e = j)) as [-> | Hne].
    + rewrite !lookup_insert_eq. reflexivity.
    + rewrite !lookup_insert_ne by exact Hne. apply Hagree, Hj.
Qed.

Lemma step_agree (e : kv) m1 m2 :
  (forall j, j <> k e -> m1 !! j = m2 !! j) -> step m1 e = step m2 e.
Proof.
  intros Hagree. apply map_eq. intros j. cbn beta.
  destruct (del e); destruct (decide (k e = j)) as [<- | Hne].
  - rewrite !lookup_delete_eq. reflexivity.
  - rewrite !lookup_delete_ne by exact Hne. apply Hagree. congruence.
  - rewrite !lookup_insert_eq. reflexivity.
  - rewrite !lookup_insert_ne by exact Hne. apply Hagree. congruence.
Qed.

Lemma fold_step_idem ws m :
  fold_left step ws (fold_left step ws m) = fold_left step ws m.
Proof.
  revert m. induction ws as [| e ws IH] using rev_ind; intros m; [reflexivity |].
  rewrite !fold_left_app. cbn [fold_left].
  transitivity (step (fold_left step ws (fold_left step ws m)) e);
    [| rewrite IH; reflexivity].
  apply step_agree. apply fold_step_agree. intros j Hj. cbn beta.
  destruct (del e).
  - rewrite lookup_delete_ne by congruence. reflexivity.
  - rewrite lookup_insert_ne by congruence. reflexivity.
Qed.

(** X9.  [Write] keeps the writes of the batch: writing the batch a second
    time leaves the database as the first [Write] left it. *)
Theorem Write_idempotent b m m' :
  Write b m = Done (m', None) -> Write b m' = Done (m', None).
Proof.
  unfold Write. destruct (db (bdb b)) eqn:Hdb.
  - rewrite !writeLoop_open by exact Hdb. intros H. injection H as <-.
    rewrite fold_step_idem. reflexivity.
  - destruct (writeLoop (bdb b) (writes b) m) as [m1 | | |] eqn:E; try discriminate.
    intros H. injection H as <-.
    pose proof (writeLoop_closed _ _ _ _ Hdb E) as ->. rewrite E. reflexivity.
Qed.

Lemma len_nonneg val : 0 <= len val.
Proof. destruct val; cbn; lia. Qed.

Lemma opsSize_cons_put key val ops :
  opsSize (OpPut key val :: ops) = len val + opsSize ops.
Proof. reflexivity. Qed.

Lemma opsSize_cons_delete key ops :
  opsSize (OpDelete key :: ops) = 1 + opsSize ops.
Proof. reflexivity. Qed.

Lemma opsSize_nonneg ops : 0 <= opsSize ops.
Proof.
  induction ops as [| [key val | key] ops IH].
  - cbn. lia.
  - rewrite opsSize_cons_put. pose proof (len_nonneg val). lia.
  - rewrite opsSize_cons_delete. lia.
Qed.

Lemma wrapInt_id x : - 2 ^ 63 <= x < 2 ^ 63 -> wrapInt x = x.
Proof. intros H. unfold wrapInt. rewrite Z.mod_small; lia. Qed.

Lemma size_batched ops b :
  0 <= size b -> size b + opsSize ops < 2 ^ 63 ->
  size (batched b ops) = size b + opsSize ops.
Proof.
  revert b. induction ops as [| [key val | key] ops IH]; intros b Hb Hfit.
  - cbn. lia.
  - change (batched b (OpPut key val :: ops))
      with (batched (fst (BatchPut b key val)) ops).
    pose proof (len_nonneg val). pose proof (opsSize_nonneg ops).
    rewrite opsSize_cons_put in *.
    rewrite IH; cbn [BatchPut fst size].
    + rewrite wrapInt_id by lia. lia.
    + rewrite wrapInt_id by lia. lia.
    + rewrite wrapInt_id by lia. lia.
  - change (batched b (OpDelete key :: ops))
      with (batched (fst (BatchDelete b key)) ops).
    pose proof (opsSize_nonneg ops).
    rewrite opsSize_cons_delete in *.
    rewrite IH; cbn [BatchDelete fst size].
    + rewrite wrapInt_id by lia. lia.
    + rewrite wrapInt_id by lia. lia.
    + rewrite wrapInt_id by lia. lia.
Qed.

(** X10.  [ValueSize] is the summed length of the values put plus one per
    deletion (as long as that fits an [int]); after [Reset] it is 0 and
    [Write] changes nothing. *)
Theorem ValueSize_batched w ops :
  opsSize ops < 2 ^ 63 ->
  ValueSize (batched (NewBatch w) ops) = opsSize ops /\
  ValueSize (Reset (batched (NewBatch w) ops)) = 0 /\
  forall m, Write (Reset (batched (NewBatch w) ops)) m = Done (m, None).
Proof.
  intros Hfit. split; [| split].
  - unfold ValueSize. rewrite size_batched; cbn [NewBatch size]; lia.
  - reflexivity.
  - intros m. reflexivity.
Qed.

End Batch.

Section MemDatabaseExamples.
Import kvdb.

(** The root handle, key "a", value "x". *)
Lemma Put_Get_witness :
  exists m',
    Put ex2.root (ex2.bs "a") (Some (ex2.bs "x")) ∅ = Done (m', None) /\
    Get ex2.root (ex2.bs "a") m' = (Some (ex2.bs "x"), None) /\
    Has ex2.root (ex2.bs "a") m' = (true, None).
Proof. apply (Put_Get ex2.root). reflexivity. Defined.

Lemma Put_Delete_other_witness :
  Get ex2.root (ex2.bs "b")
      (fst (Delete ex2.root (ex2.bs "a") {[ fullKey ex2.root (ex2.bs "b") := None ]}))
  = Get ex2.root (ex2.bs "b") {[ fullKey ex2.root (ex2.bs "b") := None ]}.
Proof.
  apply (Put_Delete_other ex2.root (ex2.bs "a") (ex2.bs "b") None).
  discriminate.
Defined.

(** Tables "a::b" and "a": the key "c" of the first is the key "b::c" of
    the second. *)
Lemma NewTable_collision_witness :
  Get (NewTable ex2.root (ex2.bs "a")) (ex2.bs "b" ++ separator ++ ex2.bs "c")
      {[ fullKey (NewTable ex2.root (ex2.bs "a" ++ separator ++ ex2.bs "b"))
                 (ex2.bs "c") := Some (ex2.bs "x") ]}
  = (Some (ex2.bs "x"), None).
Proof.
  apply (NewTable_collision ex2.root (ex2.bs "a") (ex2.bs "b") (ex2.bs "c")
           (Some (ex2.bs "x")) ∅).
  reflexivity.
Defined.

Lemma NewTable_isolated_witness :
  Get (NewTable ex2.root (ex2.bs "b")) (ex2.bs "k")
      {[ fullKey (NewTable ex2.root (ex2.bs "a")) (ex2.bs "k") := Some (ex2.bs "x") ]}
  = (None, None).
Proof.
  destruct (NewTable_isolated ex2.root (ex2.bs "a") (ex2.bs "b") (ex2.bs "k")
              (ex2.bs "k") (Some (ex2.bs "x")) ∅
              {[ fullKey (NewTable ex2.root (ex2.bs "a")) (ex2.bs "k")
                   := Some (ex2.bs "x") ]}) as [Htable _].
  - reflexivity.
  - discriminate.
  - reflexivity.
  - rewrite Htable. reflexivity.
Defined.

Lemma ForEach_collect_witness :
  (ex2.bs "ab", Some (ex2.bs "x")) ∈
    fst (ForEach ex2.root (ex2.bs "a") collect
           {[ fullKey ex2.root (ex2.bs "ab") := Some (ex2.bs "x") ]} []).
Proof.
  apply (ForEach_collect ex2.root (ex2.bs "a")); [reflexivity |].
  split; [exists (ex2.bs "b"); reflexivity | reflexivity].
Defined.

Lemma Write_idempotent_witness :
  Write (batched (NewBatch ex2.root)
           [OpPut (ex2.bs "a") (Some (ex2.bs "x")); OpDelete (ex2.bs "b")])
        {[ fullKey ex2.root (ex2.bs "a") := Some (ex2.bs "x") ]}
  = Done ({[ fullKey ex2.root (ex2.bs "a") := Some (ex2.bs "x") ]}, None).
Proof.
  apply (Write_idempotent _ {[ fullKey ex2.root (ex2.bs "b") := None ]}).
  vm_compute. reflexivity.
Defined.

Lemma ValueSize_batched_witness :
  ValueSize (batched (NewBatch ex2.root)
               [OpPut (ex2.bs "a") (Some (ex2.bs "xyz")); OpDelete (ex2.bs "b")])
  = 4.
Proof.
  apply (ValueSize_batched ex2.root
           [OpPut (ex2.bs "a") (Some (ex2.bs "xyz")); OpDelete (ex2.bs "b")]).
  vm_compute. reflexivity.
Defined.

End MemDatabaseExamples.

(** ** The wrapper that makes a missing key an error *)

(** X11.  [Wrapper.Get] never returns a [nil] value without an error: when
    the wrapped store returns [nil] and no error, the result is the error
    "not found"; every other result of the wrapped store is passed on. *)
Theorem Wrapper_Get_not_found {K : Type}
    (get : K -> option (list ascii) * option string) (key : K) :
  no_key_is_err.Get get key <> (None, None) /\
  if decide (get key = (None, None))
  then no_key_is_err.Get get key = (None, Some no_key_is_err.errNotFound)
  else no_key_is_err.Get get key = get key.
Proof.
  unfold no_key_is_err.Get.
  destruct (get key) as [[val |] [err |]] eqn:E;
    (split; [discriminate |]); case_decide as Hd; try discriminate Hd;
    try reflexivity; try (exfalso; apply Hd; reflexivity).
Qed.

(** ** Skipped transactions *)

Section FilterSkipped.
Import callbacks.
Implicit Types (skipped : list Z) (txs acc : list N) (i c : nat).

Lemma dropIndices_ext skipped skipped' txs i :
  (forall j, (i <= j)%nat -> Z.of_nat j ∈ skipped <-> Z.of_nat j ∈ skipped') ->
  dropIndices skipped i txs = dropIndices skipped' i txs.
Proof.
  revert i. induction txs as [| tx txs IH]; intros i Hext; [reflexivity |].
  cbn [dropIndices].
  rewrite (IH (S i)) by (intros j Hj; apply Hext; lia).
  destruct (decide (Z.of_nat i ∈ skipped)) as [Hin | Hin];
    destruct (decide (Z.of_nat i ∈ skipped')) as [Hin' | Hin'];
    try reflexivity; exfalso.
  - apply Hin', Hext; [lia | exact Hin].
  - apply Hin, Hext; [lia | exact Hin'].
Qed.

Lemma filterLoop_sorted skipped txs i c acc :
  StronglySorted Z.lt (drop c skipped) ->
  Forall (fun x => Z.of_nat i <= x) (drop c skipped) ->
  filterLoop skipped txs i c acc = acc ++ dropIndices (drop c skipped) i txs.
Proof.
  revert i c acc. induction txs as [| tx txs IH]; intros i c acc Hsorted Hge.
  - cbn. rewrite app_nil_r. reflexivity.
  - cbn [filterLoop dropIndices].
    destruct (skipped !! c) as [x |] eqn:Hc.
    + pose proof (lookup_lt_Some _ _ _ Hc) as Hlt.
      apply Nat.ltb_lt in Hlt. rewrite Hlt. cbn [andb].
      rewrite (drop_S _ _ _ Hc) in Hsorted, Hge |- *.
      apply StronglySorted_inv in Hsorted as [Hsorted Hall].
      apply Forall_cons in Hge as [Hx Hge].
      destruct (Z.eqb_spec x (Z.of_nat i)) as [-> | Hne].
      * rewrite decide_True by (apply list_elem_of_here).
        rewrite IH.
        -- f_equal. apply dropIndices_ext. intros j Hj.
           rewrite elem_of_cons. split; [auto | intros [H | H]; [lia | exact H]].
        -- exact Hsorted.
        -- eapply Forall_impl; [exact Hall | cbn; intros; lia].
      * rewrite decide_False.
        -- rewrite IH, <- app_assoc, (drop_S _ _ _ Hc); [reflexivity | |].
           ++ rewrite (drop_S _ _ _ Hc). constructor; assumption.
           ++ rewrite (drop_S _ _ _ Hc). constructor; [lia |].
              eapply Forall_impl; [exact Hall | cbn; intros; lia].
        -- rewrite elem_of_cons. intros [H | H]; [lia |].
           rewrite Forall_forall in Hall. specialize (Hall _ H). lia.
    + pose proof (lookup_ge_None_1 _ _ Hc) as Hlen.
      rewrite andb_false_r.
      rewrite (drop_ge skipped c) in * by lia.
      rewrite decide_False by (apply not_elem_of_nil).
      rewrite IH, <- app_assoc; [| rewrite drop_ge by lia; constructor ..].
      rewrite drop_ge by lia. reflexivity.
Qed.

(** X12.  When [SkippedTxs] is strictly increasing, [filterSkippedTxs]
    removes exactly the transactions whose index is in [SkippedTxs], and
    keeps the header. *)
Theorem filterSkippedTxs_sorted {H} (block : Block) (evmBlock : EvmBlock H) :
  StronglySorted Z.lt (SkippedTxs block) ->
  Forall (fun x => 0 <= x) (SkippedTxs block) ->
  filterSkippedTxs block evmBlock =
    {| EvmHeader := EvmHeader evmBlock;
       Transactions := dropIndices (SkippedTxs block) 0 (Transactions evmBlock) |}.
Proof.
  intros Hsorted Hnonneg. unfold filterSkippedTxs. f_equal.
  rewrite filterLoop_sorted; [reflexivity | exact Hsorted |].
  rewrite drop_0. eapply Forall_impl; [exact Hnonneg | cbn; intros; lia].
Qed.

Lemma filterLoop_blocked x skipped txs i acc :
  Z.of_nat (i + length txs) <= x ->
  filterLoop (x :: skipped) txs i 0 acc = acc ++ txs.
Proof.
  revert i acc. induction txs as [| tx txs IH]; intros i acc Hx.
  - cbn. rewrite app_nil_r. reflexivity.
  - cbn [filterLoop length lookup list_lookup] in *.
    destruct (Z.eqb_spec x (Z.of_nat i)) as [-> | _]; [lia |].
    rewrite andb_false_r, IH, <- app_assoc by lia. reflexivity.
Qed.

(** X13.  The skipped indexes are matched in their order only: when the
    first of them is beyond the last transaction, nothing is filtered,
    whatever the indexes behind it. *)
Theorem filterSkippedTxs_blocked {H} (block : Block) (evmBlock : EvmBlock H)
    (x : Z) (skipped : list Z) :
  SkippedTxs block = x :: skipped ->
  Z.of_nat (length (Transactions evmBlock)) <= x ->
  filterSkippedTxs block evmBlock = evmBlock.
Proof.
  intros Hs Hx. unfold filterSkippedTxs. rewrite Hs.
  rewrite filterLoop_blocked by (cbn; lia). destruct evmBlock. reflexivity.
Qed.

Lemma filterLoop_sublist skipped txs i c acc :
  exists kept, filterLoop skipped txs i c acc = acc ++ kept /\
    kept `sublist_of` txs /\
    (length txs <= length kept + (length skipped - c))%nat.
Proof.
  revert i c acc. induction txs as [| tx txs IH]; intros i c acc.
  - exists []. cbn. rewrite app_nil_r. split; [reflexivity |].
    split; [constructor | lia].
  - cbn [filterLoop].
    destruct ((c <? length skipped)%nat && _) eqn:E.
    + apply andb_true_iff in E as [Hc _]. apply Nat.ltb_lt in Hc.
      destruct (IH (S i) (S c) acc) as (kept & -> & Hsub & Hlen).
      exists kept. split; [reflexivity |].
      split; [apply sublist_cons_r; left; exact Hsub | cbn; lia].
    + destruct (IH (S i) c (acc ++ [tx])) as (kept & -> & Hsub & Hlen).
      exists (tx :: kept). rewrite <- app_assoc. split; [reflexivity |].
      split; [constructor; exact Hsub | cbn; lia].
Qed.

(** X14.  For any [SkippedTxs], [filterSkippedTxs] keeps the header and
    returns a sublist of the transactions, in their order, that misses at
    most as many transactions as there are skipped indexes. *)
Theorem filterSkippedTxs_sublist {H} (block : Block) (evmBlock : EvmBlock H) :
  EvmHeader (filterSkippedTxs block evmBlock) = EvmHeader evmBlock /\
  Transactions (filterSkippedTxs block evmBlock)
    `sublist_of` Transactions evmBlock /\
  (length (Transactions evmBlock) <=
   length (Transactions (filterSkippedTxs block evmBlock))
   + length (SkippedTxs block))%nat.
Proof.
  unfold filterSkippedTxs. cbn [EvmHeader Transactions].
  destruct (filterLoop_sublist (SkippedTxs block) (Transactions evmBlock) 0 0 [])
    as (kept & -> & Hsub & Hlen).
  cbn [app]. split; [reflexivity |]. split; [exact Hsub | lia].
Qed.

End FilterSkipped.

Section FilterSkippedExamples.
Import callbacks.

(** Transactions 10, 11, 12, 13 with the indexes 1 and 3 skipped. *)
Lemma filterSkippedTxs_sorted_witness :
  filterSkippedTxs
    {| base := ex.block []; SkippedTxs := [1; 3] |}
    {| EvmHeader := tt; Transactions := [10; 11; 12; 13]%N |}
  = {| EvmHeader := tt; Transactions := [10; 12]%N |}.
Proof.
  rewrite (filterSkippedTxs_sorted
             {| base := ex.block []; SkippedTxs := [1; 3] |}
             {| EvmHeader := tt; Transactions := [10; 11; 12; 13]%N |}).
  - reflexivity.
  - repeat constructor.
  - repeat constructor; discriminate.
Defined.

(** The index 7 is out of range and comes first: index 1 is not removed. *)
Lemma filterSkippedTxs_blocked_witness :
  filterSkippedTxs
    {| base := ex.block []; SkippedTxs := [7; 1] |}
    {| EvmHeader := tt; Transactions := [10; 11; 12; 13]%N |}
  = {| EvmHeader := tt; Transactions := [10; 11; 12; 13]%N |}.
Proof.
  apply (filterSkippedTxs_blocked
           {| base := ex.block []; SkippedTxs := [7; 1] |}
           {| EvmHeader := tt; Transactions := [10; 11; 12; 13]%N |} 7 [1]).
  - reflexivity.
  - vm_compute. discriminate.
Defined.

End FilterSkippedExamples.

(** ** More on spilling, and the assembly of the block *)

Section SpillMore.
Import gossip.
Context {Ext : Type}.
Variable s : Service Ext.
Variable block : inter.Block.

Local Abbreviation st := (store s).
Local Abbreviation limit := (BlockGasHardLimit (config s)).
Local Abbreviation events := (inter.Events block).
Local Abbreviation stored := (fun id : N => is_Some (GetEvent (store s) id)).

(** With its events in the store, [spillBlockEvents] returns a suffix of
    the events of the block. *)
Lemma spillBlockEvents_shape :
  Forall stored events ->
  exists k, (k <= length events)%nat /\
    spillBlockEvents s block =
      Done (setEvents block (drop k events), map (GetEvent st) (drop k events)).
Proof.
  intros Hstored. unfold spillBlockEvents.
  destruct (Nat.eqb_spec (length events) 0) as [Hz | Hnz].
  - exists 0%nat. split; [lia |]. rewrite drop_0, setEvents_id.
    destruct events; [reflexivity | discriminate].
  - destruct (spillLoop_suffix s block (length events - 1) 0
                (replicate (length events) None)) as (k & Hk & Hrun).
    + exact Hstored.
    + lia.
    + apply length_replicate.
    + apply replicate_filled.
    + exists k. split; [lia | exact Hrun].
Qed.

Lemma spill_fits_aux :
  Forall stored events ->
  Forall (fun id => 0 <= gasOf st id) events ->
  gasSum st events < 2 ^ 64 ->
  gasSum st events <= limit ->
  spillBlockEvents s block = Done (block, map (GetEvent st) events).
Proof.
  intros Hstored Hnonneg Htotal Hfits. unfold spillBlockEvents.
  destruct (Nat.eqb_spec (length events) 0) as [Hz | Hnz].
  - destruct events; [reflexivity | discriminate].
  - destruct (spillLoop_longest s block (length events - 1) 0
                (replicate (length events) None))
      as (k & Hk & Hrun & Hfit & Hlong); try assumption.
    + lia.
    + apply length_replicate.
    + apply replicate_filled.
    + rewrite drop_ge by lia. reflexivity.
    + pose proof (gasSum_nonneg s events Hnonneg). lia.
    + destruct Hlong as [-> | Hlong].
      * rewrite drop_0, setEvents_id in Hrun. exact Hrun.
      * pose proof (gasSum_drop_le s events (k - 1) Hnonneg). lia.
Qed.

(** X16.  A block whose events' summed [GasPowerUsed] does not exceed
    [BlockGasHardLimit] (an empty block included) is returned as it is,
    with all its events. *)
Theorem spillBlockEvents_fits :
  Forall stored events ->
  Forall (fun id => 0 <= gasOf st id) events ->
  gasSum st events < 2 ^ 64 ->
  gasSum st events <= limit ->
  spillBlockEvents s block = Done (block, map (GetEvent st) events).
Proof. exact spill_fits_aux. Qed.


Lemma spillLoop_missing j id i acc fullEvents :
  events !! j = Some id ->
  GetEvent st id = None ->
  Forall stored (drop (S j) events) ->
  Forall (fun id => 0 <= gasOf st id) (drop (S j) events) ->
  gasSum st (drop (S j) events) <= limit ->
  limit < 2 ^ 64 ->
  (j <= i < length events)%nat ->
  acc = gasSum st (drop (S i) events) ->
  spillLoop s block i acc fullEvents = Crit "Event not found".
Proof.
  intros Hj Hmissing Hstored Hnonneg Hfits Hlimit.
  revert acc fullEvents. induction i as [| i IH]; intros acc full Hi Hacc.
  - assert (j = 0)%nat as -> by lia.
    rewrite spillLoop_eq, Hj, Hmissing. reflexivity.
  - destruct (decide (j = S i)) as [-> | Hne].
    + rewrite spillLoop_eq, Hj, Hmissing. reflexivity.
    + destruct (lookup_lt_is_Some_2 events (S i)) as [id' Hid']; [lia |].
      assert (Hin : drop (S j) events !! (S i - S j)%nat = Some id').
      { rewrite lookup_drop. rewrite <- Hid'. f_equal. lia. }
      destruct (proj1 (Forall_lookup _ _) Hstored _ _ Hin) as [e He].
      assert (Hgas : gasOf st id' = inter.GasPowerUsed e)
        by (unfold gasOf; rewrite He; reflexivity).
      assert (Hdrop : forall n, (j < n)%nat ->
                drop n events = drop (n - S j) (drop (S j) events)).
      { intros n Hn. rewrite drop_drop. f_equal. lia. }
      assert (Hsum : gasSum st (drop (S i) events) =
                     gasSum st (drop (S (S i)) events) + gasOf st id')
        by (apply gasSum_drop_S; exact Hid').
      assert (Hle : gasSum st (drop (S i) events) <= limit).
      { rewrite (Hdrop (S i)) by lia.
        etransitivity; [apply gasSum_drop_le; exact Hnonneg | exact Hfits]. }
      assert (Hge : 0 <= gasSum st (drop (S i) events)).
      { rewrite (Hdrop (S i)) by lia.
        apply gasSum_nonneg, Forall_drop, Hnonneg. }
      rewrite spillLoop_eq, Hid', He. cbn zeta.
      rewrite Hacc, <- Hgas, <- Hsum, wrap64_id by (split; lia).
      destruct (Z.ltb_spec limit (gasSum st (drop (S i) events))) as [Hlt | _];
        [lia |].
      apply IH; [lia | reflexivity].
Qed.

(** X18.  When an event of the block is not in the store and the events
    behind it fit the limit, [spillBlockEvents] exits through [Log.Crit]
    with "Event not found". *)
Theorem spillBlockEvents_missing (j : nat) (id : N) :
  events !! j = Some id ->
  GetEvent st id = None ->
  Forall stored (drop (S j) events) ->
  Forall (fun id => 0 <= gasOf st id) (drop (S j) events) ->
  gasSum st (drop (S j) events) <= limit ->
  limit < 2 ^ 64 ->
  spillBlockEvents s block = Crit "Event not found".
Proof.
  intros Hj Hmissing Hstored Hnonneg Hfits Hlimit.
  pose proof (lookup_lt_Some _ _ _ Hj) as Hlen.
  unfold spillBlockEvents.
  destruct (Nat.eqb_spec (length events) 0) as [Hz | Hnz]; [lia |].
  eapply spillLoop_missing; try eassumption.
  - lia.
  - rewrite drop_ge by lia. reflexivity.
Qed.

End SpillMore.

Section SpillTwice.
Import gossip.
Context {Ext : Type}.


End SpillTwice.

Section Assemble.
Import gossip callbacks.
Context {Ext H : Type}.
Variable ToEvmHeader : Block -> H.

Lemma assembleLoop_stored range txs blockEvents :
  Forall is_Some range ->
  assembleLoop range txs blockEvents =
    Done (txs ++ transactionsOf range, blockEvents ++ range).
Proof.
  intros Hall. revert txs blockEvents.
  induction Hall as [| [e |] range [x Hx] Hall IH]; intros txs bev.
  - cbn. rewrite !app_nil_r. reflexivity.
  - cbn [assembleLoop]. rewrite IH. unfold transactionsOf.
    rewrite fmap_cons. cbn [mjoin list_join from_option].
    rewrite <- !app_assoc. reflexivity.
  - discriminate.
Qed.

(** X15.  For a block without skipped transactions whose events are in
    the store, [assembleEvmBlock] returns the transactions of the events
    that [spillBlockEvents] kept, once each and in their order, the header
    of the spilled block, and the list of these events twice over: the loop
    appends every event to the list that it ranges over. *)
Theorem assembleEvmBlock_doubles (s : Service Ext) (block : Block)
    (base' : inter.Block) (fullEvents : list (option inter.Event)) :
  SkippedTxs block = [] ->
  Forall (fun id => is_Some (GetEvent (store s) id)) (inter.Events (base block)) ->
  spillBlockEvents s (base block) = Done (base', fullEvents) ->
  assembleEvmBlock ToEvmHeader s block =
    Done ({| EvmHeader := ToEvmHeader {| base := base'; SkippedTxs := [] |};
             Transactions := transactionsOf fullEvents |},
          fullEvents ++ fullEvents).
Proof.
  intros Hskipped Hstored Hspill.
  destruct (spillBlockEvents_shape s (base block) Hstored) as (k & _ & Hshape).
  rewrite Hspill in Hshape. injection Hshape as Hbase Hfull.
  assert (Hsome : Forall is_Some fullEvents).
  { rewrite Hfull. apply Forall_fmap. apply Forall_drop.
    eapply Forall_impl; [exact Hstored | cbn; auto]. }
  unfold assembleEvmBlock. rewrite Hskipped, Hspill. cbn [length Nat.eqb negb].
  rewrite (assembleLoop_stored _ _ _ Hsome). reflexivity.
Qed.

End Assemble.

Section SpillExamples.
Import gossip callbacks.

(** Events 1, 2, 3 with 1 gas each, limit 3: nothing is spilled. *)
Lemma spillBlockEvents_fits_witness :
  spillBlockEvents
    (ex.service [ex.mkEvent 1 1; ex.mkEvent 2 1; ex.mkEvent 3 1] 3)
    (ex.block [1; 2; 3]%N)
  = Done (ex.block [1; 2; 3]%N,
          [Some (ex.mkEvent 1 1); Some (ex.mkEvent 2 1); Some (ex.mkEvent 3 1)]).
Proof.
  apply (spillBlockEvents_fits
           (ex.service [ex.mkEvent 1 1; ex.mkEvent 2 1; ex.mkEvent 3 1] 3)
           (ex.block [1; 2; 3]%N)).
  - repeat constructor; eexists; reflexivity.
  - repeat constructor; vm_compute; discriminate.
  - vm_compute. reflexivity.
  - vm_compute. discriminate.
Defined.


(** Event 2 is not in the store. *)
Lemma spillBlockEvents_missing_witness :
  spillBlockEvents (ex.service [ex.mkEvent 1 1; ex.mkEvent 3 1] 5)
                   (ex.block [1; 2; 3]%N)
  = Crit "Event not found".
Proof.
  apply (spillBlockEvents_missing
           (ex.service [ex.mkEvent 1 1; ex.mkEvent 3 1] 5)
           (ex.block [1; 2; 3]%N) 1 2%N).
  - reflexivity.
  - reflexivity.
  - repeat constructor; eexists; reflexivity.
  - repeat constructor; vm_compute; discriminate.
  - vm_compute. discriminate.
  - vm_compute. reflexivity.
Defined.

(** Three events with the transactions 11, 12 and 31, limit 2: events 2
    and 3 are kept and returned twice, with the transaction 31. *)
Lemma assembleEvmBlock_doubles_witness :
  assembleEvmBlock (fun b => inter.Events (base b))
    (ex.service ex2.events3 2) ex2.block3
  = Done ({| EvmHeader := [2; 3]%N; Transactions := [31]%N |},
          [Some (ex2.mkTxEvent 2 1 []); Some (ex2.mkTxEvent 3 1 [31]%N);
           Some (ex2.mkTxEvent 2 1 []); Some (ex2.mkTxEvent 3 1 [31]%N)]).
Proof.
  rewrite (assembleEvmBlock_doubles (fun b => inter.Events (base b))
             (ex.service ex2.events3 2) ex2.block3 (ex.block [2; 3]%N)
             [Some (ex2.mkTxEvent 2 1 []); Some (ex2.mkTxEvent 3 1 [31]%N)]).
  - reflexivity.
  - reflexivity.
  - repeat constructor; eexists; reflexivity.
  - vm_compute. reflexivity.
Defined.

End SpillExamples.

(** ** Heads *)

Section Heads.
Import gossip callbacks.
Context {Ext : Type} {collaborators : Collaborators Ext}.

Lemma DelHead_fold (epoch : Z) (parents : list N) (s : Service Ext) :
  store (fold_left (fun s parent => with_store (DelHead epoch parent) s) parents s) =
    {| Events := Events (store s); EventHeaders := EventHeaders (store s);
       LastEvents := LastEvents (store s);
       Heads := Heads (store s) ∖ list_to_set ((fun p => (epoch, p)) <$> parents) |}.
Proof.
  revert s. induction parents as [| parent parents IH]; intros s.
  - cbn. destruct (store s). cbn. f_equal.
    symmetry. apply difference_empty_L.
  - cbn [fold_left]. rewrite IH. cbn. f_equal.
    apply difference_difference_l_L.
Qed.

(** X19.  When the engine accepts a new event and stays in the event's
    epoch, and the collaborators and the engine leave the tables of the
    store alone, [processEvent] leaves a store that holds the event and its
    header, has it as the last event of its creator, and whose heads are
    the former heads without the parents of the event, plus the event. *)
Theorem processEvent_heads (engine : Consensus Ext) (e : inter.Event)
    (s s1 : Service Ext) :
  (forall txs, keepsStore (CollectNotConfirmedTxs txs)) ->
  (forall e' epoch, keepsStore (packsOnNewEvent e' epoch)) ->
  (forall e', keepsStore (emitterOnNewEvent e')) ->
  (forall h b s', store (fst (Commit h b s')) = store s') ->
  HasEvent (store s) (inter.Hash e) = false ->
  ProcessEvent engine e (with_store (SetEvent e) s) = (s1, None) ->
  store s1 = SetEvent e (store s) ->
  (forall s', GetEpoch engine s' = inter.Epoch e) ->
  store (fst (processEvent (Some engine) e s)) =
    {| Events := <[inter.Hash e := e]> (Events (store s));
       EventHeaders :=
         <[(inter.Epoch e, inter.Hash e) := inter.header e]> (EventHeaders (store s));
       LastEvents :=
         <[(inter.Epoch e, inter.Creator e) := inter.Hash e]> (LastEvents (store s));
       Heads :=
         Heads (store s)
           ∖ list_to_set ((fun p => (inter.Epoch e, p)) <$> inter.Parents e)
           ∪ {[ (inter.Epoch e, inter.Hash e) ]} |}.
Proof.
  intros Htxs Hpacks Hemit Hcommit Hnew Hacc Hs1 Hepoch.
  unfold processEvent. rewrite Hnew, Hacc, Hepoch, Z.eqb_refl. cbn [negb].
  rewrite Hcommit, Hemit, Hpacks. cbn [with_store store].
  rewrite DelHead_fold. cbn [with_store store Heads Events EventHeaders LastEvents
                              SetLastEvent AddHead].
  rewrite Htxs, Hs1. reflexivity.
Qed.

End Heads.

(** Heads 7 and 5; event 9 has the parents 7 and 8: the heads become 5
    and 9. *)
Lemma processEvent_heads_witness :
  let s := ex2.withHeads {[ (1, 7%N); (1, 5%N) ]} in
  gossip.Heads (gossip.store
    (fst (gossip.processEvent (collaborators := ex.idle)
            (Some ex2.accepting) ex2.child s))) =
    {[ (1, 5%N); (1, 9%N) ]}.
Proof.
  intros s.
  rewrite (processEvent_heads (collaborators := ex.idle) ex2.accepting ex2.child s
             (gossip.with_store (gossip.SetEvent ex2.child) s)).
  - vm_compute. reflexivity.
  - intros txs s'. reflexivity.
  - intros e' epoch s'. reflexivity.
  - intros e' s'. reflexivity.
  - intros h b s'. reflexivity.
  - reflexivity.
  - reflexivity.
  - reflexivity.
  - intros s'. reflexivity.
Defined.

(** ** The roots that are not decided *)

Section Roots.
Import election roots.
Local Open Scope nat_scope.

Lemma dom_undecided (el : Election) :
  dom (filter (fun kv => decidedRoots el !! kv.1 = None) (validators el)) =
  dom (validators el) ∖ dom (decidedRoots el).
Proof.
  apply set_eq. intros a.
  rewrite elem_of_difference, !elem_of_dom. split.
  - intros [x Hx]. apply map_lookup_filter_Some in Hx as [Hx Hnone].
    cbn in Hnone. split; [eauto |]. rewrite Hnone. intros [y Hy]. discriminate.
  - intros [[x Hx] Hnone]. exists x. apply map_lookup_filter_Some.
    split; [exact Hx |]. cbn. destruct (decidedRoots el !! a) eqn:E; [| reflexivity].
    exfalso. apply Hnone. eauto.
Qed.

Lemma size_undecided (el : Election) :
  size (dom (validators el)) =
  size (dom (validators el) ∖ dom (decidedRoots el)) +
  size (dom (validators el) ∩ dom (decidedRoots el)).
Proof.
  rewrite <- size_union.
  2:{ intros a Hd Hi. apply elem_of_difference in Hd as [_ Hd].
      apply elem_of_intersection in Hi as [_ Hi]. contradiction. }
  f_equal.
  apply set_eq. intros a.
  rewrite elem_of_union, elem_of_difference, elem_of_intersection.
  destruct (decide (a ∈ dom (decidedRoots el))); tauto.
Qed.

Lemma notDecidedRoots_length (el : Election) :
  length (map_to_list
            (filter (fun kv => decidedRoots el !! kv.1 = None) (validators el))).*1 =
  size (dom (validators el) ∖ dom (decidedRoots el)).
Proof.
  rewrite length_fmap, length_map_to_list, <- dom_undecided, size_dom.
  reflexivity.
Qed.

Lemma notDecidedRoots_ok (el : Election) :
  dom (decidedRoots el) ⊆ dom (validators el) ->
  exists l, notDecidedRoots el = Done l /\ NoDup l /\
    forall a, a ∈ l <-> is_Some (validators el !! a) /\ decidedRoots el !! a = None.
Proof.
  intros Hsub. eexists. split; [| split].
  - unfold notDecidedRoots. cbv zeta. rewrite notDecidedRoots_length.
    assert (Hcap : dom (validators el) ∩ dom (decidedRoots el) = dom (decidedRoots el)).
    { apply set_eq. intros a. rewrite elem_of_intersection.
      split; [tauto | intros Ha; split; [apply Hsub |]; exact Ha]. }
    pose proof (size_undecided el) as Hsize. rewrite Hcap in Hsize.
    rewrite <- (size_dom (D := gset N) (decidedRoots el)).
    rewrite <- (size_dom (D := gset N) (validators el)).
    rewrite <- Hsize, Nat.eqb_refl. reflexivity.
  - apply NoDup_fst_map_to_list.
  - intros a. rewrite list_elem_of_fmap. split.
    + intros ([a' x] & -> & Hin). apply elem_of_map_to_list in Hin.
      apply map_lookup_filter_Some in Hin as [Hx Hnone]. eauto.
    + intros [[x Hx] Hnone]. exists (a, x). split; [reflexivity |].
      apply elem_of_map_to_list, map_lookup_filter_Some. auto.
Qed.

(** X20.  [notDecidedRoots] returns, each once, exactly the members without
    a decided root when every decided root belongs to a member; when some
    decided root belongs to no member, its sanity check exits with
    "Mismatch of roots". *)
Theorem notDecidedRoots_spec (el : Election) :
  if bool_decide (dom (decidedRoots el) ⊆ dom (validators el)) then
    exists l, notDecidedRoots el = Done l /\ NoDup l /\
      forall a, a ∈ l <->
                is_Some (validators el !! a) /\ decidedRoots el !! a = None
  else notDecidedRoots el = Crit "Mismatch of roots".
Proof.
  case_bool_decide as Hsub; [apply notDecidedRoots_ok, Hsub |].
  unfold notDecidedRoots. cbv zeta. rewrite notDecidedRoots_length.
  pose proof (size_undecided el) as Hsize.
  assert (Hlt : size (dom (validators el) ∩ dom (decidedRoots el)) <
                size (dom (decidedRoots el))).
  { apply subset_size. split.
    - intros a Ha. apply elem_of_intersection in Ha as [_ Ha]. exact Ha.
    - intros Hall. apply Hsub. intros a Ha.
      specialize (Hall a Ha). apply elem_of_intersection in Hall as [Hv _].
      exact Hv. }
  rewrite <- (size_dom (D := gset N) (decidedRoots el)).
  rewrite <- (size_dom (D := gset N) (validators el)).
  destruct (Nat.eqb_spec
              (size (dom (validators el) ∖ dom (decidedRoots el)) +
               size (dom (decidedRoots el)))
              (size (dom (validators el)))) as [Heq | _]; [lia | reflexivity].
Qed.

(** X21.  After [Reset], every member of the election is not decided:
    [notDecidedRoots] returns all of them, each once. *)
Theorem notDecidedRoots_Reset (el : Election) (vv : gmap N Z) (frame : Z) :
  exists l, notDecidedRoots (Reset el vv frame) = Done l /\ NoDup l /\
    forall a, a ∈ l <-> is_Some (vv !! a).
Proof.
  destruct (notDecidedRoots_ok (Reset el vv frame)) as (l & Hrun & Hnodup & Hl).
  - cbn. rewrite dom_empty_L. intros a Ha. apply elem_of_empty in Ha as [].
  - exists l. split; [exact Hrun |]. split; [exact Hnodup |].
    intros a. rewrite Hl. cbn. rewrite lookup_empty. tauto.
Qed.

End Roots.

(** ** More on the regulator *)

Section GasPowerMore.
Import poset.

Lemma calcValidatorGasPowerPerH_wf (p : Poset) (v : N) :
  pos.wf (Validators (epochState p)) ->
  exists perHour maxGasPower startup,
    calcValidatorGasPowerPerH p v = Some (perHour, maxGasPower, startup) /\
    is_uint64 maxGasPower /\
    perHour =
      wrap64 (TotalPerH (GasPower (dag p)) * pos.Get (Validators (epochState p)) v
              / pos.TotalStake (Validators (epochState p))).
Proof.
  intros Hwf. unfold calcValidatorGasPowerPerH.
  pose proof (Get_le_stake_sum (Validators (epochState p)) v (proj1 Hwf)) as Hget.
  pose proof (TotalStake_wf _ Hwf) as Htot.
  destruct (Z.eqb_spec (pos.Get (Validators (epochState p)) v) 0) as [Hz | Hnz].
  - do 3 eexists. split; [reflexivity |]. split; [split; lia |].
    rewrite Hz, Z.mul_0_r. reflexivity.
  - unfold big.div, big.mul, big.Uint64.
    destruct (Z.eqb_spec (pos.TotalStake (Validators (epochState p))) 0)
      as [Hz | _]; [lia |].
    change (Hour =? 0) with false. cbn [mbind option_bind].
    do 3 eexists. split; [reflexivity |]. split; [apply wrap64_range | reflexivity].
Qed.

(** X22.  With a well-formed stake table and the self-parent, if any, in
    the event source, [CalcGasPower] does not panic, and its result is at
    most the validator's [maxGasPower], which is a [uint64]. *)
Theorem CalcGasPower_bounded (p : Poset) (e : inter.EventHeaderData) :
  pos.wf (Validators (epochState p)) ->
  (forall sp, inter.SelfParent e = Some sp ->
              is_Some (GetEventHeader p (inter.Epoch e) sp)) ->
  exists gasPower perHour maxGasPower startup,
    calcValidatorGasPowerPerH p (inter.Creator e) =
      Some (perHour, maxGasPower, startup) /\
    CalcGasPower p e = Some gasPower /\
    0 <= gasPower <= maxGasPower /\ maxGasPower < 2 ^ 64.
Proof.
  intros Hwf Hsp.
  destruct (calcValidatorGasPowerPerH_wf p (inter.Creator e) Hwf)
    as (perHour & maxGasPower & startup & Hcalc & [Hm0 Hm1] & _).
  assert (Hp : exists prior, spec.priorLeft p e startup = Some prior).
  { unfold spec.priorLeft. destruct (inter.SelfParent e) as [sp |]; [| eauto].
    destruct (Hsp sp eq_refl) as [h ->]. simpl. eauto. }
  destruct Hp as [prior Hp].
  eexists _, perHour, maxGasPower, startup. split; [exact Hcalc |].
  split; [exact (CalcGasPower_unfold p e _ _ _ _ Hcalc Hp) |].
  pose proof (wrap64_range (wrap64 (perHour / Hour) + prior)) as [H0 _].
  lia.
Qed.

(** X23.  When the event has a self-parent that the event source does not
    have, [CalcGasPower] panics (it reads the gas power left of a [nil]
    header). *)
Theorem CalcGasPower_missing_self_parent (p : Poset) (e : inter.EventHeaderData)
    (sp : N) :
  inter.SelfParent e = Some sp ->
  GetEventHeader p (inter.Epoch e) sp = None ->
  CalcGasPower p e = None.
Proof.
  intros Hsp Hmissing. unfold CalcGasPower.
  destruct (calcValidatorGasPowerPerH p (inter.Creator e)) as [[[a b] c] |];
    [| reflexivity].
  cbn [mbind option_bind]. rewrite Hsp, Hmissing. reflexivity.
Qed.

Lemma totalPerHour_list (p : Poset) (l : list (N * Z)) :
  pos.wf (Validators (epochState p)) ->
  is_uint64 (TotalPerH (GasPower (dag p))) ->
  Forall (fun kv => Validators (epochState p) !! kv.1 = Some kv.2) l ->
  0 <= foldr (fun kv acc => perHourOf p kv.1 + acc) 0 l /\
  pos.stake_sum (Validators (epochState p))
    * foldr (fun kv acc => perHourOf p kv.1 + acc) 0 l
  <= TotalPerH (GasPower (dag p)) * foldr (fun kv acc => acc + kv.2) 0 l.
Proof.
  intros Hwf HT Hall.
  pose proof (TotalStake_wf _ Hwf) as Htot.
  pose proof (stake_sum_nonneg _ (proj1 Hwf)) as Hsum.
  induction Hall as [| [a st] l Ha Hall IH]; [cbn; lia |].
  cbn [foldr fst snd] in *. destruct IH as [IH0 IH].
  assert (Hget : pos.Get (Validators (epochState p)) a = st)
    by (unfold pos.Get; rewrite Ha; reflexivity).
  pose proof (Get_le_stake_sum (Validators (epochState p)) a (proj1 Hwf)) as Hle.
  rewrite Hget in Hle.
  assert (Hper : 0 <= perHourOf p a /\
                 pos.stake_sum (Validators (epochState p)) * perHourOf p a
                 <= TotalPerH (GasPower (dag p)) * st).
  { unfold perHourOf.
    destruct (calcValidatorGasPowerPerH_wf p a Hwf)
      as (perHour & maxGasPower & startup & -> & _ & ->).
    rewrite Hget, Htot.
    destruct (Z.eq_dec st 0) as [-> | Hnz].
    - rewrite Z.mul_0_r. change (wrap64 (0 / _)) with 0. lia.
    - rewrite wrap64_id by (apply perHour_fits; [exact HT | lia]).
      destruct HT as [HT0 HT1]. split.
      + apply Z.div_pos; nia.
      + apply Z.mul_div_le. lia. }
  destruct Hper as [Hper0 Hper]. split; [lia | nia].
Qed.

Lemma stake_sum_foldr (vv : gmap N Z) :
  foldr (fun kv acc => acc + kv.2) 0 (map_to_list vv) = pos.stake_sum vv.
Proof.
  unfold pos.stake_sum. rewrite map_fold_foldr.
  generalize (map_to_list vv). intros l.
  induction l as [| [a st] l IH]; [reflexivity |].
  cbn [foldr snd]. rewrite IH. reflexivity.
Qed.

(** X24.  The regulator never hands out more than [TotalPerH]: with a
    well-formed stake table, the gas power per hour of all the validators
    sums to at most [TotalPerH]. *)
Theorem totalPerHour_le (p : Poset) :
  pos.wf (Validators (epochState p)) ->
  is_uint64 (TotalPerH (GasPower (dag p))) ->
  0 <= totalPerHour p <= TotalPerH (GasPower (dag p)).
Proof.
  intros Hwf HT. unfold totalPerHour.
  destruct (totalPerHour_list p (map_to_list (Validators (epochState p))) Hwf HT)
    as [H0 Hle].
  { apply Forall_forall. intros [a st] Hin.
    apply elem_of_map_to_list. exact Hin. }
  split; [exact H0 |].
  rewrite stake_sum_foldr in Hle.
  pose proof (stake_sum_nonneg _ (proj1 Hwf)) as Hnn.
  destruct HT as [HT0 _].
  destruct (Z.eq_dec (pos.stake_sum (Validators (epochState p))) 0) as [Hz | Hnz].
  - rewrite Hz in Hle.
    (* every stake is 0: every validator gets 0 *)
    clear Hle.
    assert (Hall : forall l, Forall (fun kv : N * Z =>
                     Validators (epochState p) !! kv.1 = Some kv.2) l ->
                   foldr (fun kv acc => perHourOf p kv.1 + acc) 0 l = 0).
    { intros l Hl. induction Hl as [| [a st] l Ha Hl IH]; [reflexivity |].
      cbn [foldr fst]. rewrite IH.
      pose proof (Get_le_stake_sum (Validators (epochState p)) a (proj1 Hwf)) as Hle.
      assert (Hg0 : pos.Get (Validators (epochState p)) a = 0) by lia.
      unfold perHourOf, calcValidatorGasPowerPerH. rewrite Hg0. reflexivity. }
    rewrite Hall; [lia |].
    apply Forall_forall. intros [a st] Hin.
    apply elem_of_map_to_list. exact Hin.
  - nia.
Qed.

End GasPowerMore.

(** ** Sealing once *)

Section SealOnce.
Import poset.
Variable Top : gmap N Z -> gmap N Z.
Variable frameConsensusTime : Poset -> Z -> Z.

(** X26.  With a positive [EpochLen], a second [tryToSealEpoch] right after
    a seal returns false and changes nothing; and the seal itself keeps
    the block number, the last atropos, the state hash, the blocks applied
    and the event source. *)
Theorem tryToSealEpoch_once (atropos atropos' : N)
    (lastHeaders lastHeaders' : gmap N inter.EventHeaderData) (p p1 : Poset) :
  0 < EpochLen (dag p) ->
  tryToSealEpoch Top frameConsensusTime atropos lastHeaders p = (p1, Done true) ->
  tryToSealEpoch Top frameConsensusTime atropos' lastHeaders' p1 = (p1, Done false) /\
  LastBlockN (checkpoint p1) = LastBlockN (checkpoint p) /\
  LastAtropos (checkpoint p1) = LastAtropos (checkpoint p) /\
  StateHash (checkpoint p1) = StateHash (checkpoint p) /\
  applied p1 = applied p /\ input p1 = input p.
Proof.
  intros Hlen.
  unfold tryToSealEpoch, mbind, M_bind, bind, gets, isEpochSealed.
  destruct (EpochLen (dag p) <=? LastDecidedFrame (checkpoint p)) eqn:E;
    [| discriminate].
  cbn. intros H. injection H as <-. cbn.
  destruct (Z.leb_spec (EpochLen (dag p)) 0) as [Hle | _]; [lia |].
  repeat split.
Qed.

End SealOnce.

Section MoreExamples.
Import poset.

Lemma CalcGasPower_bounded_witness :
  exists gasPower perHour maxGasPower startup,
    calcValidatorGasPowerPerH ex.p1 (inter.Creator ex.h101) =
      Some (perHour, maxGasPower, startup) /\
    CalcGasPower ex.p1 ex.h101 = Some gasPower /\
    0 <= gasPower <= maxGasPower /\ maxGasPower < 2 ^ 64.
Proof.
  apply (CalcGasPower_bounded ex.p1 ex.h101).
  - exact ex_vals_wf.
  - intros sp Hsp. injection Hsp as <-. exists ex.h100. reflexivity.
Defined.

(** Event 101 has the self-parent 100, which [ex.p0] does not hold. *)
Lemma CalcGasPower_missing_self_parent_witness :
  CalcGasPower ex.p0 ex.h101 = None.
Proof.
  apply (CalcGasPower_missing_self_parent ex.p0 ex.h101 100%N); reflexivity.
Defined.

Lemma totalPerHour_le_witness :
  0 <= totalPerHour ex.p0 <= 360000.
Proof.
  apply (totalPerHour_le ex.p0).
  - exact ex_vals_wf.
  - vm_compute. split; [discriminate | reflexivity].
Defined.

(** Epoch 1 with its 10 frames decided: the seal leads to epoch 2, and a
    second attempt does nothing. *)
Lemma tryToSealEpoch_once_witness :
  let p1 := fst (tryToSealEpoch ex.Top ex.frameConsensusTime 100%N ∅
                   (ex.engine ∅ ∅ 10)) in
  tryToSealEpoch ex.Top ex.frameConsensusTime 101%N ∅ p1 = (p1, Done false).
Proof.
  intros p1.
  apply (tryToSealEpoch_once ex.Top ex.frameConsensusTime 100%N 101%N ∅ ∅
           (ex.engine ∅ ∅ 10) p1).
  - reflexivity.
  - reflexivity.
Defined.

End MoreExamples.

(** ** The sum of [spillBlockEvents] is a [uint64] *)

(** Why C5 and X17 ask for a sum below 2^64: the events 1 and 2 use
    2^64 - 1 and 2 gas and the limit is 5.  The summed [GasPowerUsed]
    exceeds the limit, but the accumulator wraps around to 1 at event 1,
    and both events are kept. *)
Example spillBlockEvents_wraps :
  let s := ex.service [ex.mkEvent 1 (2 ^ 64 - 1); ex.mkEvent 2 2] 5 in
  let block := ex.block [1; 2]%N in
  gossip.BlockGasHardLimit (gossip.config s) <
    gasSum (gossip.store s) (inter.Events block) /\
  gossip.spillBlockEvents s block =
    Done (block, [Some (ex.mkEvent 1 (2 ^ 64 - 1)); Some (ex.mkEvent 2 2)]).
Proof. split; vm_compute; reflexivity. Qed.
